(** * Covasim web application: parameter reconciliation and run assembly

    A shallow embedding of [covasim/webapp/cova_app.py]: the parameter
    catalog ([get_defaults]), the upload check ([upload_pars]) and the
    reconcile / run / assemble pipeline of [run_sim].

    Conventions of the embedding.
    - Python values that can cross the RPC boundary are JSON-decoded trees
      ([PyVal]); two entries of an override group never share one object.
    - A Python [float] is an exact rational, or one of the IEEE specials
      (infinities, not-a-number).  Rounding to 53 bits and the finite
      exponent range of a double are outside the model.
    - A [dict] is an association list in insertion order with unique keys.
    - A raised exception is a value of [exn]; code that can raise returns
      [Res]; the mutable objects of [run_sim] are threaded through a state
      and exception monad that keeps the mutations made before a raise.
    - [print] has no effect on any returned value and is left out. *)

From Stdlib Require Import ZArith QArith Qcanon Qround List String Ascii Bool Lia.
From Stdlib Require Import DecimalString.
Import ListNotations.
Local Open Scope string_scope.
Local Open Scope Z_scope.

(** ** Exceptions and results *)

Inductive exn : Type :=
| KeyError (key : string)
| TypeError (msg : string)
| ValueError (msg : string)
| IndexError (msg : string)
| OverflowError (msg : string)
| NameError (msg : string).

Inductive Res (A : Type) : Type :=
| Ok (a : A)
| Raise (e : exn).
Arguments Ok {A} a.
Arguments Raise {A} e.

Definition rbind {A B} (r : Res A) (f : A -> Res B) : Res B :=
  match r with
  | Ok a => f a
  | Raise e => Raise e
  end.

Declare Scope res_scope.
Delimit Scope res_scope with res.
Notation "'do' x <- c ; k" := (rbind c (fun x => k))
  (at level 10, x name, c at level 100, k at level 200) : res_scope.

(** ** Floats *)

Inductive float : Type :=
| FNaN
| FInf (neg : bool)
| FFin (q : Qc).

Definition Qc_leb (a b : Qc) : bool := Qle_bool a b.
Definition Qc_eqb (a b : Qc) : bool := Qeq_bool a b.

(** IEEE comparison: every comparison with not-a-number is false. *)
Definition fle (a b : float) : bool :=
  match a, b with
  | FNaN, _ | _, FNaN => false
  | FInf true, _ => true
  | _, FInf false => true
  | FInf false, _ => false
  | _, FInf true => false
  | FFin x, FFin y => Qc_leb x y
  end.

Definition flt (a b : float) : bool := fle a b && negb (fle b a).

Definition is_nan (a : float) : bool :=
  match a with FNaN => true | _ => false end.

Definition of_Z (z : Z) : float := FFin (Q2Qc (inject_Z z)).

(** [dec m e] is the decimal literal [m * 10^-e]. *)
Definition dec (m : Z) (e : nat) : float :=
  FFin (Q2Qc (m # Z.to_pos (10 ^ Z.of_nat e))).

(** ** Values *)

#[warnings="-register-all"]
Inductive PyVal : Type :=
| VNone
| VBool (b : bool)
| VInt (z : Z)
| VFloat (f : float)
| VStr (s : string)
| VList (l : list PyVal)
| VDict (d : list (string * PyVal)).

Definition type_name (v : PyVal) : string :=
  match v with
  | VNone => "NoneType"
  | VBool _ => "bool"
  | VInt _ => "int"
  | VFloat _ => "float"
  | VStr _ => "str"
  | VList _ => "list"
  | VDict _ => "dict"
  end.

(** Truth value of an object, as tested by [if]. *)
Definition truthy (v : PyVal) : bool :=
  match v with
  | VNone => false
  | VBool b => b
  | VInt z => negb (z =? 0)
  | VFloat (FFin q) => negb (Qc_eqb q 0%Qc)
  | VFloat _ => true
  | VStr s => negb (String.eqb s "")
  | VList l => match l with [] => false | _ => true end
  | VDict d => match d with [] => false | _ => true end
  end.

(** ** Dictionaries *)

Section Dict.
Variable V : Type.

Definition dict : Type := list (string * V).

Fixpoint dict_get (k : string) (d : dict) : option V :=
  match d with
  | [] => None
  | (k', v) :: r => if String.eqb k k' then Some v else dict_get k r
  end.

Definition dict_mem (k : string) (d : dict) : bool :=
  match dict_get k d with Some _ => true | None => false end.

(** [d[k] = v]: an existing key keeps its position, a new key goes last. *)
Fixpoint dict_set (k : string) (v : V) (d : dict) : dict :=
  match d with
  | [] => [(k, v)]
  | (k', v') :: r =>
      if String.eqb k k' then (k', v) :: r else (k', v') :: dict_set k v r
  end.

Definition dict_update (d e : dict) : dict :=
  fold_left (fun acc kv => dict_set (fst kv) (snd kv) acc) e d.

(** [{**a, **b}] *)
Definition dict_merge (a b : dict) : dict :=
  dict_update (dict_update [] a) b.

Definition keys (d : dict) : list string := map fst d.
End Dict.

Arguments dict_get {V} k d.
Arguments dict_mem {V} k d.
Arguments dict_set {V} k v d.
Arguments dict_update {V} d e.
Arguments dict_merge {V} a b.
Arguments keys {V} d.

(** [d[k]] on a dict. *)
Definition lookup {V} (k : string) (d : dict V) : Res V :=
  match dict_get k d with
  | Some v => Ok v
  | None => Raise (KeyError k)
  end.

(** [o[k]] for a string subscript [k]. *)
Definition getitem (o : PyVal) (k : string) : Res PyVal :=
  match o with
  | VDict d => lookup k d
  | VStr _ => Raise (TypeError "string indices must be integers")
  | VList _ => Raise (TypeError "list indices must be integers or slices, not str")
  | _ => Raise (TypeError ("'" ++ type_name o ++ "' object is not subscriptable"))
  end.

(** [o[k] = v] for a string subscript [k]; the result is the mutated [o]. *)
Definition setitem (o : PyVal) (k : string) (v : PyVal) : Res PyVal :=
  match o with
  | VDict d => Ok (VDict (dict_set k v d))
  | VList _ => Raise (TypeError "list indices must be integers or slices, not str")
  | _ => Raise (TypeError ("'" ++ type_name o ++ "' object does not support item assignment"))
  end.

(** ** Text of numbers: [float(str)] and [int(str)] *)

Definition is_space (c : ascii) : bool :=
  let n := nat_of_ascii c in
  ((9 <=? n) && (n <=? 13) || (28 <=? n) && (n <=? 32))%nat.

Definition digit_of (c : ascii) : option Z :=
  let n := Z.of_nat (nat_of_ascii c) in
  if (48 <=? n) && (n <=? 57) then Some (n - 48) else None.

Definition lower (c : ascii) : ascii :=
  let n := nat_of_ascii c in
  if ((65 <=? n) && (n <=? 90))%nat then ascii_of_nat (n + 32) else c.

Fixpoint lstrip (l : list ascii) : list ascii :=
  match l with
  | c :: r => if is_space c then lstrip r else l
  | [] => []
  end.

Definition strip (l : list ascii) : list ascii :=
  rev (lstrip (rev (lstrip l))).

(** The digits that follow a first digit: digits, each optionally preceded
    by one underscore. Returns the digits read and the rest of the text. *)
Fixpoint more_digits (l : list ascii) (acc : list Z) : list Z * list ascii :=
  match l with
  | c :: r =>
      match digit_of c with
      | Some d => more_digits r (acc ++ [d])%list
      | None =>
          if Ascii.eqb c "_" then
            match r with
            | c2 :: r2 =>
                match digit_of c2 with
                | Some d2 => more_digits r2 (acc ++ [d2])%list
                | None => (acc, l)
                end
            | [] => (acc, l)
            end
          else (acc, l)
      end
  | [] => (acc, l)
  end.

(** A possibly empty digit part at the head of [l]. *)
Definition digitpart (l : list ascii) : list Z * list ascii :=
  match l with
  | c :: r =>
      match digit_of c with
      | Some d => more_digits r [d]
      | None => ([], l)
      end
  | [] => ([], l)
  end.

Definition digits_value (ds : list Z) : Z :=
  fold_left (fun a d => 10 * a + d) ds 0.

Definition sign_of (l : list ascii) : bool * list ascii :=
  match l with
  | c :: r =>
      if Ascii.eqb c "-" then (true, r)
      else if Ascii.eqb c "+" then (false, r)
      else (false, l)
  | [] => (false, l)
  end.

(** [m * 10^e] as a rational. *)
Definition scale10 (m e : Z) : Qc :=
  if 0 <=? e then Q2Qc (inject_Z (m * 10 ^ e))
  else Q2Qc (m # Pos.pow 10 (Z.to_pos (- e))).

(** The exponent suffix of a float literal: empty, or [e], a sign and digits. *)
Definition exponent (l : list ascii) : option Z :=
  match l with
  | [] => Some 0
  | c :: r =>
      if Ascii.eqb (lower c) "e" then
        let (neg, r1) := sign_of r in
        match digitpart r1 with
        | ((_ :: _) as ds, []) =>
            Some (if neg then - digits_value ds else digits_value ds)
        | _ => None
        end
      else None
  end.

(** An unsigned decimal float literal without surrounding space. *)
Definition floatnumber (l : list ascii) : option Qc :=
  let (ip, r1) := digitpart l in
  let (fp, r2) :=
    match r1 with
    | c :: r => if Ascii.eqb c "." then digitpart r else ([], r1)
    | [] => ([], r1)
    end in
  match (ip ++ fp)%list with
  | [] => None
  | (_ :: _) as ds =>
      match exponent r2 with
      | Some e => Some (scale10 (digits_value ds) (e - Z.of_nat (List.length fp)))
      | None => None
      end
  end.

Definition fneg (neg : bool) (q : Qc) : Qc := if neg then (- q)%Qc else q.

(** [float(s)] for a string [s]; [None] where CPython raises ValueError. *)
Definition float_of_string (s : string) : option float :=
  let (neg, body) := sign_of (strip (list_ascii_of_string s)) in
  let word := string_of_list_ascii (map lower body) in
  if String.eqb word "inf" || String.eqb word "infinity" then Some (FInf neg)
  else if String.eqb word "nan" then Some FNaN
  else option_map (fun q => FFin (fneg neg q)) (floatnumber body).

(** [int(s)] for a string [s], base ten; [None] where CPython raises
    ValueError. *)
Definition int_of_string (s : string) : option Z :=
  let (neg, body) := sign_of (strip (list_ascii_of_string s)) in
  match digitpart body with
  | ((_ :: _) as ds, []) => Some (if neg then - digits_value ds else digits_value ds)
  | _ => None
  end.

(** [repr(s)] of a string: single quotes, unless the text holds a single
    quote and no double quote; backslash and the chosen quote escaped. Keys
    are printable text, other escapes are not needed. *)
Definition repr_str (s : string) : string :=
  let cs := list_ascii_of_string s in
  let has c := existsb (Ascii.eqb c) cs in
  let q : ascii := if has "'"%char && negb (has "034"%char) then "034"%char else "'"%char in
  let esc c :=
    if Ascii.eqb c "\" then ["\"; "\"]%char
    else if Ascii.eqb c q then ["\"%char; c]
    else if Ascii.eqb c "010" then ["\"; "n"]%char
    else if Ascii.eqb c "013" then ["\"; "r"]%char
    else if Ascii.eqb c "009" then ["\"; "t"]%char
    else [c] in
  string_of_list_ascii (q :: flat_map esc cs ++ [q])%list.

(** [str(E)] *)
Definition str_exn (e : exn) : string :=
  match e with
  | KeyError k => repr_str k
  | TypeError m | ValueError m | IndexError m | OverflowError m | NameError m => m
  end.

(** [float(v)] *)
Definition py_float (v : PyVal) : Res float :=
  match v with
  | VBool b => Ok (of_Z (if b then 1 else 0))
  | VInt z => Ok (of_Z z)
  | VFloat f => Ok f
  | VStr s =>
      match float_of_string s with
      | Some f => Ok f
      | None => Raise (ValueError ("could not convert string to float: " ++ repr_str s))
      end
  | _ => Raise (TypeError ("float() argument must be a string or a number, not '"
                             ++ type_name v ++ "'"))
  end.

(** Truncation toward zero. *)
Definition trunc (q : Qc) : Z := Z.quot (Qnum q) (Zpos (Qden q)).

(** [int(v)] *)
Definition py_int (v : PyVal) : Res Z :=
  match v with
  | VBool b => Ok (if b then 1 else 0)
  | VInt z => Ok z
  | VFloat (FFin q) => Ok (trunc q)
  | VFloat FNaN => Raise (ValueError "cannot convert float NaN to integer")
  | VFloat (FInf _) => Raise (OverflowError "cannot convert float infinity to integer")
  | VStr s =>
      match int_of_string s with
      | Some z => Ok z
      | None => Raise (ValueError ("invalid literal for int() with base 10: " ++ repr_str s))
      end
  | _ => Raise (TypeError ("int() argument must be a string, a bytes-like object or a number, not '"
                             ++ type_name v ++ "'"))
  end.

(** [round(x)] with one argument: nearest integer, ties to the even one. *)
Definition round_half_even (q : Qc) : Z :=
  let fl := Qfloor q in
  let r := (q - Q2Qc (inject_Z fl))%Qc in
  match (r ?= Q2Qc (1 # 2))%Qc with
  | Lt => fl
  | Gt => fl + 1
  | Eq => if Z.even fl then fl else fl + 1
  end.

Definition py_round (f : float) : Res Z :=
  match f with
  | FFin q => Ok (round_half_even q)
  | FNaN => Raise (ValueError "cannot convert float NaN to integer")
  | FInf _ => Raise (OverflowError "cannot convert float infinity to integer")
  end.


(** ** [numpy.median] *)

Fixpoint insert_sorted (x : float) (l : list float) : list float :=
  match l with
  | [] => [x]
  | y :: r => if fle x y then x :: l else y :: insert_sorted x r
  end.

Definition sort (l : list float) : list float :=
  fold_right insert_sorted [] l.

Definition fadd (a b : float) : float :=
  match a, b with
  | FNaN, _ | _, FNaN => FNaN
  | FInf s, FInf t => if Bool.eqb s t then FInf s else FNaN
  | FInf s, _ | _, FInf s => FInf s
  | FFin x, FFin y => FFin (x + y)%Qc
  end.

Definition fhalf (a : float) : float :=
  match a with
  | FFin x => FFin (x / Q2Qc (2 # 1))%Qc
  | _ => a
  end.

(** The median of a one-dimensional array: not-a-number if the array is
    empty or holds one; else the middle element of the sorted array, or the
    mean of the two middle elements. *)
Definition median (l : list float) : float :=
  if existsb is_nan l then FNaN
  else
    let s := sort l in
    let n := List.length l in
    match n with
    | O => FNaN
    | _ =>
        if Nat.odd n then nth (n / 2) s FNaN
        else fhalf (fadd (nth (n / 2 - 1) s FNaN) (nth (n / 2) s FNaN))
    end.

(** An element of the array that the median is taken of. The bounds come
    from the catalog and are numbers; an element of another type makes
    numpy raise, which is all that is kept of that case here. *)
Definition as_float (v : PyVal) : Res float :=
  match v with
  | VBool b => Ok (of_Z (if b then 1 else 0))
  | VInt z => Ok (of_Z z)
  | VFloat f => Ok f
  | _ => Raise (TypeError ("unsupported array element of type '" ++ type_name v ++ "'"))
  end.

(** ** The parameter catalog *)

(** [dict(best=.., min=.., max=.., name=.., tip=..)] *)
Definition pardict (best min max : PyVal) (name tip : string) : PyVal :=
  VDict [("best", best); ("min", min); ("max", max);
         ("name", VStr name); ("tip", VStr tip)].

Definition max_pop : PyVal := VFloat (of_Z 10000).
Definition max_days : PyVal := VInt 90.

Definition regions : dict (dict PyVal) :=
  [ ("scale",       [("Example", VInt 1);             ("Seattle", VInt 25)]);
    ("n",           [("Example", VInt 2000);          ("Seattle", VInt 10000)]);
    ("n_days",      [("Example", VInt 60);            ("Seattle", VInt 45)]);
    ("n_infected",  [("Example", VInt 10);            ("Seattle", VInt 4)]);
    ("interv_days", [("Example", VInt 20);            ("Seattle", VInt 20)]);
    ("interv_effs", [("Example", VFloat (dec 5 1));   ("Seattle", VFloat (dec 0 1))]) ].

(** [sim_pars] as built before the region overrides are applied. *)
Definition base_sim_pars : dict PyVal :=
  fold_left (fun d kv => dict_set (fst kv) (snd kv) d)
    [ ("scale",       pardict (VInt 1)    (VInt 1) (VFloat (of_Z 1000000)) "Population scale factor" "Multiplier for results (to approximate large populations)");
      ("n",           pardict (VInt 5000) (VInt 1) max_pop  "Population size" "Number of agents simulated in the model");
      ("n_infected",  pardict (VInt 10)   (VInt 1) max_pop  "Initial infections" "Number of initial seed infections in the model");
      ("n_days",      pardict (VInt 90)   (VInt 1) max_days "Number of days to simulate" "Number of days to run the simulation for");
      ("interv_days", pardict (VInt 20)   (VInt 0) max_days "Intervention start day" "Start day of the intervention (can be blank)");
      ("interv_effs", pardict (VFloat (dec 9 1)) (VInt 0) (VFloat (of_Z 1)) "Intervention effectiveness" "Change in infection rate due to intervention");
      ("seed",        pardict (VInt 1)    (VInt 1) (VInt 100) "Random seed" "Random number seed (leave blank for random results)") ]
    [].

Definition epi_pars_defaults : dict PyVal :=
  fold_left (fun d kv => dict_set (fst kv) (snd kv) d)
    [ ("beta",        pardict (VFloat (dec 15 3)) (VFloat (of_Z 0)) (VFloat (dec 2 1)) "Beta (infectiousness)" "Probability of infection per contact per day");
      ("contacts",    pardict (VInt 20)           (VFloat (of_Z 0)) (VInt 50) "Number of contacts" "Average number of people each person is in contact with each day");
      ("serial",      pardict (VFloat (of_Z 4))   (VFloat (of_Z 1)) (VInt 30) "Serial interval (days)" "Average number of days between exposure and being infectious");
      ("incub",       pardict (VFloat (of_Z 5))   (VFloat (of_Z 1)) (VInt 30) "Incubation period (days)" "Average number of days between exposure and developing symptoms");
      ("dur",         pardict (VFloat (of_Z 8))   (VFloat (of_Z 1)) (VInt 30) "Infection duration (days)" "Average number of days between infection and recovery (viral shedding period)");
      ("timetodie",   pardict (VFloat (of_Z 22))  (VFloat (of_Z 1)) (VInt 60) "Time until death (days)" "Average number of days between infection and death");
      ("default_cfr", pardict (VFloat (dec 2 2))  (VFloat (of_Z 0)) (VFloat (of_Z 1)) "Case fatality rate" "Proportion of people who become infected who die") ]
    [].

Local Open Scope res_scope.

(** The loop [for parkey,valuedict in regions.items()] of [get_defaults]:
    [sim_pars[parkey]['best'] = valuedict[region]]. *)
Fixpoint apply_regions (region : string) (items : dict (dict PyVal))
    (sim_pars : dict PyVal) : Res (dict PyVal) :=
  match items with
  | [] => Ok sim_pars
  | (parkey, valuedict) :: rest =>
      do v <- lookup region valuedict;
      do entry <- lookup parkey sim_pars;
      do entry' <- setitem entry "best" v;
      apply_regions region rest (dict_set parkey entry' sim_pars)
  end.

(** [region] is [None] or a region name. *)
Definition get_defaults (region : option string) (merge : bool) : Res PyVal :=
  let region := match region with None => "Example" | Some r => r end in
  do sim_pars <- apply_regions region regions base_sim_pars;
  let epi_pars := epi_pars_defaults in
  if merge then Ok (VDict (dict_merge sim_pars epi_pars))
  else Ok (VDict [("sim_pars", VDict sim_pars); ("epi_pars", VDict epi_pars)]).

(** ** [upload_pars] *)

Definition dq : string := String "034"%char EmptyString.

Definition repr_keys {V} (d : dict V) : string :=
  "dict_keys([" ++ String.concat ", " (map repr_str (keys d)) ++ "])".

(** [loadjson] is the file reader of the support library: it returns the
    decoded document or raises. *)
Definition upload_pars (loadjson : string -> Res PyVal) (fname : string) : Res PyVal :=
  do parameters <- loadjson fname;
  match parameters with
  | VDict d =>
      if negb (dict_mem "sim_pars" d) || negb (dict_mem "epi_pars" d) then
        Raise (KeyError ("Parameters file must have keys " ++ dq ++ "sim_pars" ++ dq
                         ++ " and " ++ dq ++ "epi_pars" ++ dq ++ ", not " ++ repr_keys d))
      else Ok parameters
  | _ =>
      Raise (TypeError ("Uploaded file was a <class '" ++ type_name parameters
                        ++ "'> object rather than a dict"))
  end.

(** ** The mutable objects of [run_sim]

    [pars] is built by the conversion loop; [sim_pars] and [epi_pars] are
    the caller's groups, whose entries the loop rewrites in place. A
    computation returns the objects as it left them, also when it raises. *)

Record St : Type := mkSt {
  pars : dict PyVal;
  sim_pars : dict PyVal;
  epi_pars : dict PyVal
}.

Definition M (A : Type) : Type := St -> St * Res A.

Definition mret {A} (a : A) : M A := fun st => (st, Ok a).

Definition mbind {A B} (c : M A) (f : A -> M B) : M B :=
  fun st =>
    match c st with
    | (st', Ok a) => f a st'
    | (st', Raise e) => (st', Raise e)
    end.

Definition lift {A} (r : Res A) : M A := fun st => (st, r).
Definition get : M St := fun st => (st, Ok st).
Definition put (st : St) : M unit := fun _ => (st, Ok tt).

Declare Scope m_scope.
Delimit Scope m_scope with m.
Notation "'let*' x := c 'in' k" := (mbind c (fun x => k))
  (at level 10, x name, c at level 100, k at level 200) : m_scope.
Notation "'exec' c 'then' k" := (mbind c (fun _ => k))
  (at level 10, c at level 100, k at level 200) : m_scope.
Local Open Scope m_scope.

(** [for key,entry in items: body(key, entry)] *)
Fixpoint for_items {V} (items : dict V) (body : string -> V -> M unit) : M unit :=
  match items with
  | [] => mret tt
  | (key, entry) :: rest => exec body key entry then for_items rest body
  end.

(** ** [run_sim]: parameter conversion *)

(** The body of the conversion loop, for one [key, entry] of the merged
    override groups. *)
Definition convert_key (defaults : PyVal) (key : string) (entry : PyVal) : M unit :=
  let* minval := lift (do d <- getitem defaults key; getitem d "min") in
  let* maxval := lift (do d <- getitem defaults key; getitem d "max") in
  let* best := lift (getitem entry "best") in
  let* value := lift (if truthy best then
                        do b <- py_float best;
                        do lo <- as_float minval;
                        do hi <- as_float maxval;
                        Ok (VFloat (median [b; lo; hi]))
                      else Ok VNone) in
  let* st := get in
  exec put (mkSt (dict_set key value (pars st)) (sim_pars st) (epi_pars st)) then
  let* st := get in
  let* v := lift (lookup key (pars st)) in
  if dict_mem key (sim_pars st) then
    let* e := lift (lookup key (sim_pars st)) in
    let* e' := lift (setitem e "best" v) in
    put (mkSt (pars st) (dict_set key e' (sim_pars st)) (epi_pars st))
  else
    let* e := lift (lookup key (epi_pars st)) in
    let* e' := lift (setitem e "best" v) in
    put (mkSt (pars st) (sim_pars st) (dict_set key e' (epi_pars st))).

Definition not_a_mapping (v : PyVal) : exn :=
  TypeError ("'" ++ type_name v ++ "' object is not a mapping").

(** What the [try] block of [run_sim] leaves behind. [conv_pars] is [None]
    while the name [pars] is unbound. *)
Record Conv : Type := mkConv {
  conv_pars : option (dict PyVal);
  conv_sim_pars : PyVal;
  conv_epi_pars : PyVal;
  conv_exn : option exn
}.

(** The [try] block: catalog, [pars], and the loop over
    [{**sim_pars, **epi_pars}.items()]. *)
Definition convert (sp ep verbose : PyVal) : Conv :=
  match get_defaults None true with
  | Raise e => mkConv None sp ep (Some e)
  | Ok defaults =>
      let pars0 := dict_set "verbose" verbose [] in
      match sp, ep with
      | VDict s, VDict e =>
          let (st, r) := for_items (dict_merge s e) (convert_key defaults)
                           (mkSt pars0 s e) in
          mkConv (Some (pars st)) (VDict (sim_pars st)) (VDict (epi_pars st))
                 (match r with Ok _ => None | Raise x => Some x end)
      | VDict _, _ => mkConv (Some pars0) sp ep (Some (not_a_mapping ep))
      | _, _ => mkConv (Some pars0) sp ep (Some (not_a_mapping sp))
      end
  end.

(** [err] after the [try] block. *)
Definition conv_err (c : Conv) : string :=
  match conv_exn c with
  | None => ""
  | Some e => "" ++ ("Parameter conversion failed! " ++ str_exn e)
  end.

(** ** The simulation engine and the support libraries

    [cv.Sim], [cv.to_plot], the plotting and utility calls are not part of
    this file's source: [run_sim] is embedded over an interface for them.
    Constructing and configuring a simulation returns normally; [run] may
    raise, and returns the simulation object as the failed run left it. *)

Record Trace : Type := mkTrace {
  trace_x : list float;
  trace_y : list float;
  trace_mode : string;
  trace_name : string;
  trace_line_color : string
}.

Record Figure : Type := mkFigure {
  fig_traces : list Trace;
  fig_title : string;
  fig_xaxis_title : string;
  fig_yaxis_title : string;
  fig_autosize : bool
}.

Record Engine : Type := mkEngine {
  Sim : Type;
  new_Sim : Sim;                                       (* cv.Sim() *)
  sim_setitem : Sim -> string -> PyVal -> Sim;         (* sim[key] = value *)
  update_pars : Sim -> dict PyVal -> Sim;              (* sim.update_pars(pars=pars) *)
  set_seed : Sim -> option Z -> Sim;                   (* sim.set_seed(seed) / sim.set_seed() *)
  run : Sim -> Sim * option exn;                       (* sim.run(do_plot=False) *)
  results : Sim -> dict (list float);                  (* sim.results *)
  npts : Sim -> Z;                                     (* sim.npts *)
  to_xlsx : Sim -> string;                             (* sim.to_xlsx().blob *)
  to_json : Sim -> string;                             (* sim.to_json() *)
  to_plot : dict (dict string);                        (* cv.to_plot *)
  gridcolors : nat -> list (Qc * Qc * Qc);             (* sc.gridcolors(n) *)
  uuid : nat -> string;                                (* str(sc.uuid()), per graph *)
  getdate : string;                                    (* sc.getdate(dateformat=..) *)
  b64encode : string -> string;                        (* base64.b64encode(..).decode('utf-8') *)
  fig_to_json : Figure -> string                       (* fig.to_json() *)
}.

Record GraphPayload : Type := mkGraph {
  graph_json : string;
  graph_id : string
}.

Record FileBlob : Type := mkFile {
  filename : string;
  content : string
}.

Record Summary : Type := mkSummary {
  days : Z;
  cases : Z;
  deaths : Z
}.

Record RunResult : Type := mkRunResult {
  out_err : string;
  out_sim_pars : PyVal;
  out_epi_pars : PyVal;
  out_graphs : list GraphPayload;
  out_files : dict FileBlob;
  out_summary : Summary
}.

Definition string_of_Z (z : Z) : string := NilZero.string_of_int (Z.to_int z).

(** ['rgb(%d,%d,%d)' % (255*r, 255*g, 255*b)]: [%d] truncates. *)
Definition rgb (c : Qc * Qc * Qc) : string :=
  let '(r, g, b) := c in
  let d q := string_of_Z (trunc (Q2Qc (255 # 1) * q)%Qc) in
  "rgb(" ++ d r ++ "," ++ d g ++ "," ++ d b ++ ")".

(** [l[-1]] *)
Definition last_item (l : list float) : Res float :=
  match rev l with
  | x :: _ => Ok x
  | [] => Raise (IndexError "index -1 is out of bounds for axis 0 with size 0")
  end.

Section RunSim.
Variable E : Engine.

(** The traces of one figure: the loop over [keylabels.enumitems()]. *)
Fixpoint add_traces (sim : Sim E) (colors : list (Qc * Qc * Qc)) (i : nat)
    (keylabels : dict string) (fig : list Trace) : Res (list Trace) :=
  match keylabels with
  | [] => Ok fig
  | (key, label) :: rest =>
      do color <- match nth_error colors i with
                  | Some c => Ok c
                  | None => Raise (IndexError "list index out of range")
                  end;
      let this_color := rgb color in
      do y <- lookup key (results E sim);
      do x <- lookup "t" (results E sim);
      add_traces sim colors (S i) rest
        (fig ++ [mkTrace x y "lines" label this_color])%list
  end.

(** The figures: the loop over [to_plot.enumitems()]. *)
Fixpoint plot_all (sim : Sim E) (p : nat) (groups : dict (dict string))
    (graphs : list GraphPayload) : Res (list GraphPayload) :=
  match groups with
  | [] => Ok graphs
  | (title, keylabels) :: rest =>
      let colors := gridcolors E (List.length keylabels) in
      do traces <- add_traces sim colors 0 keylabels [];
      let fig := mkFigure traces title "Day" "Count" true in
      plot_all sim (S p) rest
        (graphs ++ [mkGraph (fig_to_json E fig) (uuid E p)])%list
  end.

Definition make_files (sim : Sim E) : dict FileBlob :=
  let datestamp := getdate E in
  let files := [] in
  let files := dict_set "xlsx"
    (mkFile ("COVASim_results_" ++ datestamp ++ ".xlsx")
            ("data:application/vnd.openxmlformats-officedocument.spreadsheetml.sheet;base64,"
               ++ b64encode E (to_xlsx E sim))) files in
  dict_set "json"
    (mkFile ("COVASim_results_" ++ datestamp ++ ".txt")
            ("data:application/text;base64," ++ b64encode E (to_json E sim))) files.

Definition make_summary (sim : Sim E) : Res Summary :=
  let d := npts E sim - 1 in
  do ce <- lookup "cum_exposed" (results E sim);
  do ce_last <- last_item ce;
  do c <- py_round ce_last;
  do cd <- lookup "cum_deaths" (results E sim);
  do cd_last <- last_item cd;
  do de <- py_round cd_last;
  Ok (mkSummary d c de).

Definition run_sim (sp ep verbose : PyVal) : Res RunResult :=
  let err := "" in
  let c := convert sp ep verbose in
  let err := err ++ conv_err c in
  let sim := new_Sim E in
  let sim := sim_setitem E sim "cfr_by_age" (VBool false) in
  do pars <- match conv_pars c with
             | Some p => Ok p
             | None => Raise (NameError "local variable 'pars' referenced before assignment")
             end;
  let sim := update_pars E sim pars in
  do seed <- lookup "seed" pars;
  do sim <- match seed with
            | VNone => Ok (set_seed E sim None)
            | _ => do z <- py_int seed; Ok (set_seed E sim (Some z))
            end;
  let (sim, failure) := run E sim in
  let err := match failure with
             | None => err
             | Some x => err ++ ("Sim run failed! (" ++ str_exn x ++ ")")
             end in
  do graphs <- plot_all sim 0 (to_plot E) [];
  let files := make_files sim in
  do summary <- make_summary sim;
  Ok (mkRunResult err (conv_sim_pars c) (conv_epi_pars c) graphs files summary).
End RunSim.

(** ** Sample engines and requests

    A small engine used to run [run_sim] on concrete requests: its [run]
    fails with [failure] when given, and leaves [after] as the results. *)

Record ToySim : Type := mkToySim {
  toy_pars : dict PyVal;
  toy_seed : option Z;
  toy_ran : bool
}.

Definition toy_engine (failure : option exn) (after : dict (list float)) (n : Z) : Engine :=
  {| Sim := ToySim;
     new_Sim := mkToySim [] None false;
     sim_setitem := fun sim k v => mkToySim (dict_set k v (toy_pars sim)) (toy_seed sim) (toy_ran sim);
     update_pars := fun sim p => mkToySim (dict_update (toy_pars sim) p) (toy_seed sim) (toy_ran sim);
     set_seed := fun sim z => mkToySim (toy_pars sim) z (toy_ran sim);
     run := fun sim => (mkToySim (toy_pars sim) (toy_seed sim) true, failure);
     results := fun sim => if toy_ran sim then after else [];
     npts := fun _ => n;
     to_xlsx := fun _ => "xlsx";
     to_json := fun _ => "{}";
     to_plot := [("Total counts", [("cum_exposed", "Cumulative infections");
                                   ("cum_deaths", "Cumulative deaths")])];
     gridcolors := fun k => repeat (0%Qc, 0%Qc, 0%Qc) k;
     uuid := fun p => "id" ++ string_of_Z (Z.of_nat p);
     getdate := "2020-Mar-20_12.00.00";
     b64encode := fun s => s;
     fig_to_json := fun f => fig_title f |}.

Definition toy_results : dict (list float) :=
  [ ("t",           [of_Z 0; of_Z 1; of_Z 2]);
    ("cum_exposed", [of_Z 10; of_Z 14; dec 205 1]);
    ("cum_deaths",  [of_Z 0; of_Z 0; dec 15 1]) ].

(** An override entry as the client sends it: [{'best': b}]. *)
Definition override (b : PyVal) : PyVal := VDict [("best", b)].

(** A request that sets every catalog key. *)
Definition full_sim_pars : PyVal :=
  VDict [ ("scale", override (VInt 1)); ("n", override (VInt 20000));
          ("n_infected", override (VInt 10)); ("n_days", override (VStr "30"));
          ("interv_days", override (VInt 20)); ("interv_effs", override (VFloat (dec 5 1)));
          ("seed", override (VInt 1)) ].

Definition full_epi_pars : PyVal :=
  VDict [ ("beta", override (VFloat (dec 15 3))); ("contacts", override (VInt 20));
          ("serial", override (VInt 4)); ("incub", override (VInt 5));
          ("dur", override (VInt 8)); ("timetodie", override (VInt 22));
          ("default_cfr", override (VStr "")) ].

(** ** Predicates used in the statements *)

(** [min <= best <= max] for a catalog entry. *)
Definition in_bounds (entry : PyVal) : bool :=
  match getitem entry "min", getitem entry "best", getitem entry "max" with
  | Ok mn, Ok b, Ok mx =>
      match as_float mn, as_float b, as_float mx with
      | Ok lo, Ok x, Ok hi => fle lo x && fle x hi
      | _, _, _ => false
      end
  | _, _, _ => false
  end.

Definition all_in_bounds (d : dict PyVal) : bool :=
  forallb (fun kv => in_bounds (snd kv)) d.

(** Every entry of a catalog, merged or grouped, is within its bounds. *)
Definition catalog_in_bounds (out : PyVal) : bool :=
  match out with
  | VDict [("sim_pars", VDict sp); ("epi_pars", VDict ep)] =>
      all_in_bounds sp && all_in_bounds ep
  | VDict d => all_in_bounds d
  | _ => false
  end.

(** The names of the region override table. *)
Definition known_region (r : string) : bool :=
  String.eqb r "Example" || String.eqb r "Seattle".

(** The test made by [upload_pars]: a mapping that has both group keys. *)
Definition has_groups (doc : PyVal) : bool :=
  match doc with
  | VDict d => dict_mem "sim_pars" d && dict_mem "epi_pars" d
  | _ => false
  end.

(** The upload schema in the words of the specification: a mapping whose
    keys are exactly the two group keys. *)
Definition spec_exactly_two_groups (doc : PyVal) : bool :=
  match doc with
  | VDict d =>
      dict_mem "sim_pars" d && dict_mem "epi_pars" d
      && forallb (fun k => String.eqb k "sim_pars" || String.eqb k "epi_pars") (keys d)
  | _ => false
  end.


(** The seed handed to the engine: [None] for [sim.set_seed()]. *)
Definition seed_arg (pars : dict PyVal) : Res (option Z) :=
  (do seed <- lookup "seed" pars;
   match seed with
   | VNone => Ok None
   | _ => do z <- py_int seed; Ok (Some z)
   end)%res.

(** The simulation object as [run_sim] has set it up before the run. *)
Definition configured (E : Engine) (pars : dict PyVal) (seed : option Z) : Sim E :=
  set_seed E
    (update_pars E (sim_setitem E (new_Sim E) "cfr_by_age" (VBool false)) pars)
    seed.

(** [err] after the engine run. *)
Definition run_err (err : string) (failure : option exn) : string :=
  match failure with
  | None => err
  | Some x => err ++ ("Sim run failed! (" ++ str_exn x ++ ")")
  end.


(** [pars] as the conversion builds it from the full request. *)
Definition full_pars : dict PyVal :=
  Eval vm_compute in
    match conv_pars (convert full_sim_pars full_epi_pars (VBool true)) with
    | Some p => p
    | None => []
    end.

(** An engine whose run fails after the results were filled in. *)
Definition late_failing_engine : Engine :=
  toy_engine (Some (ValueError "boom")) toy_results 3.

(** An engine whose run fails and leaves no results. *)
Definition early_failing_engine : Engine :=
  toy_engine (Some (ValueError "boom")) [] 3.


(** ** The conversion loop, stage by stage *)

(** The merged catalog that [run_sim] reads: [get_defaults(merge=True)]. *)
Definition default_catalog : dict PyVal :=
  match get_defaults None true with
  | Ok (VDict d) => d
  | _ => []
  end.

(** The bounds of a catalog entry as the median sees them. *)
Definition entry_bounds (spec : PyVal) : Res (float * float) :=
  (do mn <- getitem spec "min";
   do mx <- getitem spec "max";
   do lo <- as_float mn;
   do hi <- as_float mx;
   Ok (lo, hi))%res.

Definition bounds (key : string) : option (float * float) :=
  match dict_get key default_catalog with
  | Some spec =>
      match entry_bounds spec with
      | Ok b => Some b
      | Raise _ => None
      end
  | None => None
  end.

(** Per-key reconciliation of an override value within bounds: the median
    of three for a truthy value, null otherwise. *)
Definition reconciled (lo hi : float) (best : PyVal) : Res PyVal :=
  if truthy best then (do b <- py_float best; Ok (VFloat (median [b; lo; hi])))%res
  else Ok VNone.

(** The value that one pass of the loop body assigns to [pars[key]]. *)
Definition key_value (defaults : PyVal) (key : string) (entry : PyVal) : Res PyVal :=
  (do minval <- (do d <- getitem defaults key; getitem d "min");
   do maxval <- (do d <- getitem defaults key; getitem d "max");
   do best <- getitem entry "best";
   if truthy best then
     do b <- py_float best;
     do lo <- as_float minval;
     do hi <- as_float maxval;
     Ok (VFloat (median [b; lo; hi]))
   else Ok VNone)%res.

(** [entry['best'] = v], for the entry of [key] in a group. *)
Definition set_best (key : string) (v : PyVal) (group : dict PyVal) : Res (dict PyVal) :=
  (do e <- lookup key group;
   do e' <- setitem e "best" v;
   Ok (dict_set key e' group))%res.

(** The last two lines of the loop body: the reconciled value is written
    back into the caller's entry. *)
Definition write_back (key : string) (v : PyVal) (st : St) : St * Res unit :=
  if dict_mem key (sim_pars st) then
    match set_best key v (sim_pars st) with
    | Ok g => (mkSt (pars st) g (epi_pars st), Ok tt)
    | Raise x => (st, Raise x)
    end
  else
    match set_best key v (epi_pars st) with
    | Ok g => (mkSt (pars st) (sim_pars st) g, Ok tt)
    | Raise x => (st, Raise x)
    end.

Definition set_par (key : string) (v : PyVal) (st : St) : St :=
  mkSt (dict_set key v (pars st)) (sim_pars st) (epi_pars st).

(** The state in which the loop starts. *)
Definition start (s e : dict PyVal) (verbose : PyVal) : St :=
  mkSt [("verbose", verbose)] s e.

Definition bounds_ordered (spec : PyVal) : bool :=
  match entry_bounds spec with
  | Ok (lo, hi) => fle lo hi
  | Raise _ => false
  end.


(** Requests used below. *)
Definition clamp_request : dict PyVal :=
  [("n", override (VInt 20000)); ("n_days", override (VStr "10"));
   ("beta", override (VInt 0))].

Definition unknown_first_request : dict PyVal :=
  [("bogus", override (VInt 5)); ("n", override (VInt 20000))].

Definition unknown_middle_request : dict PyVal :=
  [("n", override (VInt 20000)); ("bogus", override (VInt 5));
   ("n_days", override (VInt 30))].



(** An engine whose run succeeds. *)
Definition working_engine : Engine := toy_engine None toy_results 3.

(** The result of the full request on the working engine. *)
Definition full_result : RunResult :=
  Eval vm_compute in
    match run_sim working_engine full_sim_pars full_epi_pars (VBool true) with
    | Ok r => r
    | Raise _ => mkRunResult "" VNone VNone [] [] (mkSummary 0 0 0)
    end.


(** The value computed for an item of the loop, null where it raises. *)
Definition val_of (defaults : PyVal) (kv : string * PyVal) : PyVal :=
  match key_value defaults (fst kv) (snd kv) with
  | Ok v => v
  | Raise _ => VNone
  end.

Definition vals (defaults : PyVal) (items : dict PyVal) : dict PyVal :=
  map (fun kv => (fst kv, val_of defaults kv)) items.

(** Writing [x] back under [key] changes neither group. *)
Definition stable (s e : dict PyVal) (key : string) (x : PyVal) : Prop :=
  if dict_mem key s then set_best key x s = Ok s else set_best key x e = Ok e.

(** [o'] is the entry [o] with its [best] field set to [x]. *)
Definition rewritten (x : PyVal) (o o' : option PyVal) : Prop :=
  exists d, o = Some (VDict d) /\ o' = Some (VDict (dict_set "best" x d)).

Definition zero : PyVal := VFloat (FFin 0%Qc).

(** A request whose reconciled value is zero. *)
Definition negative_request : dict PyVal :=
  [("interv_days", override (VInt (-5))); ("n", override (VInt 100))].


Definition contacts_request : dict PyVal :=
  [("contacts", override (VInt 80)); ("n_days", override (VInt 400))].

(** A document with a third top-level key. *)
Definition three_key_document : PyVal :=
  VDict [("sim_pars", VDict []); ("epi_pars", VDict []); ("extra", VInt 1)].


(** ** Starting the server *)

(** How the server is started: the port stored in [app.config] and the
    [autoreload] argument of [app.run]. *)
Record ServerStart : Type := mkServerStart {
  server_port : Z;
  run_autoreload : bool
}.

(** [sys.argv[i]] *)
Definition argv_item (argv : list string) (i : nat) : Res string :=
  match nth_error argv i with
  | Some a => Ok a
  | None => Raise (IndexError "list index out of range")
  end.

(** The [__main__] block, from the command line [sys.argv] to the call of
    [app.run]. The change of directory has no part in it. *)
Definition main (argv : list string) : Res ServerStart :=
  (do port <- (if (1 <? List.length argv)%nat then
                 do a <- argv_item argv 1; py_int (VStr a)
               else Ok 8188);
   do autoreload <- (if (2 <? List.length argv)%nat then
                       do a <- argv_item argv 2; py_int (VStr a)
                     else Ok 1);
   Ok (mkServerStart port true))%res.

(** ** More predicates used in the statements *)

(** An override entry that the conversion can process: a mapping whose
    [best] is falsy, or converts to a float that is a number. *)
Definition usable_entry (entry : PyVal) : bool :=
  match entry with
  | VDict d =>
      match dict_get "best" d with
      | Some b =>
          negb (truthy b)
          || match py_float b with
             | Ok f => negb (is_nan f)
             | Raise _ => false
             end
      | None => false
      end
  | _ => false
  end.

Definition is_mapping (v : PyVal) : bool :=
  match v with VDict _ => true | _ => false end.

(** The trace drawn for the [i]-th series of a metric group. *)
Definition trace_of (E : Engine) (sim : Sim E) (colors : list (Qc * Qc * Qc))
    (t : list float) (i : nat) (keylabel : string * string) : Trace :=
  mkTrace t
    (match dict_get (fst keylabel) (results E sim) with Some y => y | None => [] end)
    "lines" (snd keylabel)
    (rgb (nth i colors (0%Qc, 0%Qc, 0%Qc))).

Fixpoint traces_from (E : Engine) (sim : Sim E) (colors : list (Qc * Qc * Qc))
    (t : list float) (i : nat) (keylabels : dict string) : list Trace :=
  match keylabels with
  | [] => []
  | kl :: rest => trace_of E sim colors t i kl :: traces_from E sim colors t (S i) rest
  end.

(** The payload built for the [p]-th metric group. *)
Definition graph_of (E : Engine) (sim : Sim E) (t : list float) (p : nat)
    (group : string * dict string) : GraphPayload :=
  let colors := gridcolors E (List.length (snd group)) in
  mkGraph
    (fig_to_json E (mkFigure (traces_from E sim colors t 0 (snd group))
                             (fst group) "Day" "Count" true))
    (uuid E p).

Fixpoint graphs_from (E : Engine) (sim : Sim E) (t : list float) (p : nat)
    (groups : dict (dict string)) : list GraphPayload :=
  match groups with
  | [] => []
  | g :: rest => graph_of E sim t p g :: graphs_from E sim t (S p) rest
  end.

(** The series that the figures read. *)
Definition plotted_keys (E : Engine) : list string :=
  flat_map (fun g => keys (snd g)) (to_plot E).


(** The groups of the full request. *)
Definition full_sim_group : dict PyVal :=
  match full_sim_pars with VDict d => d | _ => [] end.

Definition full_epi_group : dict PyVal :=
  match full_epi_pars with VDict d => d | _ => [] end.


(** A series that the summary can read: present, not empty, ending in a
    number. *)
Definition readable_series (E : Engine) (sim : Sim E) (key : string) : bool :=
  match dict_get key (results E sim) with
  | Some series =>
      match rev series with
      | FFin _ :: _ => true
      | _ => false
      end
  | None => false
  end.

(** * Properties *)

(** ** Text of numbers *)

Example float_of_string_ex :
  float_of_string " 10 " = Some (of_Z 10) /\
  float_of_string "-1_0.50e1" = Some (dec (-105) 0) /\
  float_of_string ".5" = Some (dec 5 1) /\
  float_of_string "5." = Some (of_Z 5) /\
  float_of_string "1e-2" = Some (dec 1 2) /\
  float_of_string "NaN" = Some FNaN /\
  float_of_string "-Infinity" = Some (FInf true) /\
  float_of_string "abc" = None /\
  float_of_string "." = None /\
  float_of_string "1__0" = None /\
  float_of_string "" = None.
Proof. vm_compute. repeat split; reflexivity. Qed.

(** ** The order on floats and the median of three *)

Section FloatOrder.

Lemma Qc_leb_le (x y : Qc) : Qc_leb x y = true <-> (x <= y)%Qc.
Proof. unfold Qc_leb, Qcle. apply Qle_bool_iff. Qed.

Lemma fle_antisym (a b : float) :
  fle a b = true -> fle b a = true -> a = b.
Proof.
  destruct a as [| [] | x], b as [| [] | y]; simpl; try discriminate; auto.
  intros H1 H2. apply Qc_leb_le in H1, H2.
  f_equal. now apply Qcle_antisym.
Qed.

Lemma fle_trans (a b c : float) :
  fle a b = true -> fle b c = true -> fle a c = true.
Proof.
  destruct a as [| [] | x], b as [| [] | y], c as [| [] | z];
    simpl; try discriminate; auto.
  intros H1 H2. apply Qc_leb_le in H1, H2. apply Qc_leb_le.
  eapply Qcle_trans; eauto.
Qed.

Lemma fle_not_nan (a b : float) :
  fle a b = true -> is_nan a = false /\ is_nan b = false.
Proof. destruct a as [| [] |], b as [| [] |]; simpl; try discriminate; auto. Qed.

(** The median of an override value and two ordered bounds, case by case. *)
Lemma median3_cases (v lo hi : float) :
  fle lo hi = true ->
  median [v; lo; hi] =
    if is_nan v then FNaN
    else if fle v lo then lo
    else if fle v hi then v
    else hi.
Proof.
  intros Hb. destruct (fle_not_nan _ _ Hb) as [Hlo Hhi].
  unfold median. simpl existsb. rewrite Hlo, Hhi. simpl orb.
  rewrite !orb_false_r.
  destruct (is_nan v) eqn:Hv; [reflexivity |].
  cbn [List.length Nat.odd Nat.even negb Nat.div]. 
  unfold sort. cbn [fold_right insert_sorted]. rewrite Hb.
  cbn [insert_sorted].
  destruct (fle v lo) eqn:H1; [reflexivity |].
  destruct (fle v hi) eqn:H2; reflexivity.
Qed.

(** Clamp law for the median of three. *)
Lemma median3_clamp (v lo hi : float) :
  fle lo hi = true ->
  (fle lo v && fle v hi = true -> median [v; lo; hi] = v) /\
  (flt v lo = true -> median [v; lo; hi] = lo) /\
  (flt hi v = true -> median [v; lo; hi] = hi).
Proof.
  intros Hb. rewrite (median3_cases v lo hi Hb).
  destruct (fle_not_nan _ _ Hb) as [Hlo Hhi].
  unfold flt. repeat split.
  - intros H. apply andb_true_iff in H as [H1 H2].
    destruct (fle_not_nan _ _ H1) as [_ Hv]. rewrite Hv.
    destruct (fle v lo) eqn:H3.
    + now apply fle_antisym.
    + now rewrite H2.
  - intros H. apply andb_true_iff in H as [H1 H2].
    destruct (fle_not_nan _ _ H1) as [Hv _]. now rewrite Hv, H1.
  - intros H. apply andb_true_iff in H as [H1 H2].
    destruct (fle_not_nan _ _ H1) as [_ Hv]. rewrite Hv.
    apply negb_true_iff in H2. rewrite H2.
    destruct (fle v lo) eqn:H3; [| reflexivity].
    rewrite (fle_trans _ _ _ H3 Hb) in H2. discriminate.
Qed.

(** A value inside ordered bounds is its own median with them. *)
Lemma median3_fixed (v lo hi : float) :
  fle lo hi = true ->
  median [median [v; lo; hi]; lo; hi] = median [v; lo; hi].
Proof.
  intros Hb. destruct (fle_not_nan _ _ Hb) as [Hlo Hhi].
  rewrite (median3_cases v lo hi Hb).
  destruct (is_nan v) eqn:Hv.
  - now rewrite (median3_cases FNaN lo hi Hb).
  - destruct (fle v lo) eqn:H1.
    + rewrite (median3_cases lo lo hi Hb), Hlo.
      destruct (fle lo lo); [reflexivity |]. now rewrite Hb.
    + destruct (fle v hi) eqn:H2.
      * now rewrite (median3_cases v lo hi Hb), Hv, H1, H2.
      * rewrite (median3_cases hi lo hi Hb), Hhi.
        destruct (fle hi lo) eqn:H3.
        -- now apply fle_antisym.
        -- destruct (fle hi hi); reflexivity.
Qed.

End FloatOrder.

(** ** Dictionaries *)

Section DictFacts.
Context {V : Type}.
Implicit Types (d : dict V) (k : string) (v : V).

Lemma dict_get_set_eq k v d : dict_get k (dict_set k v d) = Some v.
Proof.
  induction d as [| [k' v'] r IH]; simpl.
  - now rewrite String.eqb_refl.
  - destruct (String.eqb k k') eqn:Ek; simpl; now rewrite Ek.
Qed.

Lemma dict_get_set_neq k k' v d :
  k <> k' -> dict_get k (dict_set k' v d) = dict_get k d.
Proof.
  intros Hne. induction d as [| [k2 v2] r IH]; simpl.
  - apply String.eqb_neq in Hne. now rewrite Hne.
  - destruct (String.eqb k' k2) eqn:Ek; simpl.
    + apply String.eqb_eq in Ek. subst k2.
      apply String.eqb_neq in Hne. now rewrite Hne.
    + now rewrite IH.
Qed.

Lemma dict_get_set k k' v d :
  dict_get k (dict_set k' v d) = if String.eqb k k' then Some v else dict_get k d.
Proof.
  destruct (String.eqb k k') eqn:Ek.
  - apply String.eqb_eq in Ek. subst. apply dict_get_set_eq.
  - apply String.eqb_neq in Ek. now apply dict_get_set_neq.
Qed.

Lemma dict_set_same k v d : dict_get k d = Some v -> dict_set k v d = d.
Proof.
  induction d as [| [k' v'] r IH]; simpl; [discriminate |].
  destruct (String.eqb k k') eqn:Ek.
  - intros H. now inversion H.
  - intros H. now rewrite IH.
Qed.

Lemma dict_get_none k d : dict_get k d = None <-> ~ In k (keys d).
Proof.
  induction d as [| [k' v'] r IH]; simpl.
  - tauto.
  - destruct (String.eqb k k') eqn:Ek.
    + apply String.eqb_eq in Ek. subst. split; [discriminate | tauto].
    + apply String.eqb_neq in Ek. rewrite IH. split.
      * intros H [H1 | H1]; [congruence | tauto].
      * tauto.
Qed.

Lemma dict_get_in k v d : dict_get k d = Some v -> In (k, v) d.
Proof.
  induction d as [| [k' v'] r IH]; simpl; [discriminate |].
  destruct (String.eqb k k') eqn:Ek.
  - apply String.eqb_eq in Ek. subst. intros H. inversion H. now left.
  - auto.
Qed.

Lemma in_dict_get k v d : NoDup (keys d) -> In (k, v) d -> dict_get k d = Some v.
Proof.
  induction d as [| [k' v'] r IH]; simpl; [tauto |].
  intros Hnd [H | H].
  - inversion H. subst. now rewrite String.eqb_refl.
  - inversion Hnd as [| ? ? Hni Hnd']. subst.
    destruct (String.eqb k k') eqn:Ek.
    + apply String.eqb_eq in Ek. subst. exfalso. apply Hni.
      change k' with (fst (k', v)). now apply in_map.
    + auto.
Qed.

Lemma keys_dict_set k v d :
  keys (dict_set k v d) = if dict_mem k d then keys d else (keys d ++ [k])%list.
Proof.
  unfold dict_mem. induction d as [| [k' v'] r IH]; simpl; [reflexivity |].
  destruct (String.eqb k k') eqn:Ek; simpl; [reflexivity |].
  rewrite IH. now destruct (dict_get k r).
Qed.

Lemma dict_mem_true k d : dict_mem k d = true <-> In k (keys d).
Proof.
  unfold dict_mem. destruct (dict_get k d) eqn:E.
  - split; [| reflexivity]. intros _.
    apply dict_get_in in E. change k with (fst (k, v)). now apply in_map.
  - apply dict_get_none in E. split; [discriminate | tauto].
Qed.

Lemma nodup_dict_set k v d : NoDup (keys d) -> NoDup (keys (dict_set k v d)).
Proof.
  intros H. rewrite keys_dict_set. destruct (dict_mem k d) eqn:E; [assumption |].
  assert (Hni : ~ In k (keys d)).
  { intros Hin. apply dict_mem_true in Hin. congruence. }
  apply NoDup_rev in H. rewrite <- (rev_involutive (keys d ++ [k])).
  apply NoDup_rev. rewrite rev_app_distr. simpl. constructor; [| assumption].
  now rewrite <- in_rev.
Qed.

Lemma nodup_dict_update d (e : dict V) : NoDup (keys d) -> NoDup (keys (dict_update d e)).
Proof.
  unfold dict_update. revert d.
  induction e as [| [k v] r IH]; simpl; intros d H; [assumption |].
  apply IH. now apply nodup_dict_set.
Qed.

Lemma nodup_dict_merge (a b : dict V) : NoDup (keys (dict_merge a b)).
Proof.
  unfold dict_merge. apply nodup_dict_update, nodup_dict_update. constructor.
Qed.

End DictFacts.

Lemma nodup_app_disjoint {A : Type} (l1 l2 : list A) (a : A) :
  NoDup (l1 ++ l2) -> In a l1 -> In a l2 -> False.
Proof.
  induction l1 as [| b r IH]; cbn [app]; intros Hnd H1 H2; [destruct H1 |].
  inversion Hnd as [| ? ? Hni Hnd']. subst.
  destruct H1 as [-> | H1].
  - apply Hni, in_or_app. now right.
  - exact (IH Hnd' H1 H2).
Qed.

(** The keys of an updated dict depend on the keys alone. *)
Lemma keys_dict_update {V W : Type} (d e : dict V) (d' e' : dict W) :
  keys d = keys d' -> keys e = keys e' ->
  keys (dict_update d e) = keys (dict_update d' e').
Proof.
  unfold dict_update. revert d d' e'.
  induction e as [| [k v] r IH]; intros d d' [| [k' v'] r']; simpl;
    intros Hd He; try discriminate; [assumption |].
  inversion He. subst k'. apply IH; [| assumption].
  rewrite !keys_dict_set.
  assert (Hm : dict_mem k d = dict_mem k d').
  { destruct (dict_mem k d) eqn:E1, (dict_mem k d') eqn:E2; try reflexivity.
    - apply dict_mem_true in E1. rewrite Hd in E1. apply dict_mem_true in E1. congruence.
    - apply dict_mem_true in E2. rewrite <- Hd in E2. apply dict_mem_true in E2. congruence. }
  rewrite <- Hm. destruct (dict_mem k d); now rewrite Hd.
Qed.

(** ** The catalog *)

Lemma get_defaults_none (merge : bool) :
  get_defaults None merge = get_defaults (Some "Example") merge.
Proof. reflexivity. Qed.

Lemma get_defaults_unknown (r : string) (merge : bool) :
  known_region r = false ->
  get_defaults (Some r) merge = Raise (KeyError r).
Proof.
  unfold known_region. intros H. apply orb_false_iff in H as [H1 H2].
  unfold get_defaults, regions.
  cbn [apply_regions]. unfold lookup at 1. cbn [dict_get].
  now rewrite H1, H2.
Qed.

Lemma get_defaults_known (r : string) (merge : bool) :
  known_region r = true ->
  exists cat, get_defaults (Some r) merge = Ok cat /\ catalog_in_bounds cat = true.
Proof.
  unfold known_region. intros H. apply orb_true_iff in H as [H | H];
    apply String.eqb_eq in H; subst r; destruct merge;
    eexists; (split; [vm_compute; reflexivity | vm_compute; reflexivity]).
Qed.

(** C5 (as amended). [get_defaults] falls back to the region "Example" only
    when no region is given; it returns a catalog for the names of the
    region table and raises [KeyError] for every other region name. *)
Theorem get_defaults_region (region : option string) (merge : bool) :
  let r := match region with None => "Example" | Some r => r end in
  get_defaults region merge = get_defaults (Some r) merge /\
  if known_region r then exists cat, get_defaults region merge = Ok cat
  else get_defaults region merge = Raise (KeyError r).
Proof.
  destruct region as [r |]; cbn zeta.
  - split; [reflexivity |].
    destruct (known_region r) eqn:Hk.
    + destruct (get_defaults_known r merge Hk) as [cat [Hc _]]. now exists cat.
    + now apply get_defaults_unknown.
  - split; [reflexivity |].
    change (known_region "Example") with true. cbn iota.
    destruct (get_defaults_known "Example" merge eq_refl) as [cat [Hc _]].
    exists cat. now rewrite get_defaults_none.
Qed.

(** C5 (as stated) fails: a region name that is not in the region table makes
    [get_defaults] raise instead of using the default region's values. *)
Lemma get_defaults_unknown_region_raises :
  known_region "Wuhan" = false /\
  get_defaults (Some "Wuhan") true = Raise (KeyError "Wuhan") /\
  get_defaults (Some "Wuhan") false = Raise (KeyError "Wuhan") /\
  get_defaults (Some "Wuhan") true <> get_defaults (Some "Example") true.
Proof. vm_compute. repeat split; try reflexivity. discriminate. Qed.

(** C7. Every entry of every catalog that [get_defaults] returns, for any
    region and either output shape, satisfies [min <= best <= max]; so does
    the catalog before the region overrides are applied. *)
Theorem catalog_within_bounds (region : option string) (merge : bool) (out : PyVal) :
  get_defaults region merge = Ok out ->
  catalog_in_bounds out = true /\
  all_in_bounds base_sim_pars = true /\
  all_in_bounds epi_pars_defaults = true.
Proof.
  intros H. split; [| split; vm_compute; reflexivity].
  assert (Hr : exists r, get_defaults (Some r) merge = Ok out).
  { destruct region as [r |]; [now exists r |].
    exists "Example". now rewrite <- get_defaults_none. }
  destruct Hr as [r Hr].
  destruct (known_region r) eqn:Hk.
  - destruct (get_defaults_known r merge Hk) as [cat [Hc Hb]]. congruence.
  - rewrite (get_defaults_unknown r merge Hk) in Hr. discriminate.
Qed.

Lemma catalog_within_bounds_witness :
  get_defaults (Some "Seattle") true
    = Ok (match get_defaults (Some "Seattle") true with Ok o => o | Raise _ => VNone end) /\
  catalog_in_bounds
    (match get_defaults (Some "Seattle") true with Ok o => o | Raise _ => VNone end) = true /\
  all_in_bounds base_sim_pars = true /\
  all_in_bounds epi_pars_defaults = true.
Proof.
  split; [reflexivity |].
  apply (catalog_within_bounds (Some "Seattle") true). reflexivity.
Defined.

(** ** Uploads *)

(** C9 (as amended). Once the file is decoded, [upload_pars] fails exactly
    when the document is not a mapping or lacks one of the two group keys;
    otherwise it returns the document unchanged, whatever other keys it has. *)
Theorem upload_pars_validation (loadjson : string -> Res PyVal) (fname : string)
    (doc : PyVal) :
  loadjson fname = Ok doc ->
  ((exists e, upload_pars loadjson fname = Raise e) <-> has_groups doc = false) /\
  (has_groups doc = true -> upload_pars loadjson fname = Ok doc).
Proof.
  intros Hl. unfold upload_pars. rewrite Hl. cbn [rbind].
  destruct doc as [| b | z | f | s | l | d]; cbn [has_groups];
    try (split; [split; [reflexivity | intros _; eexists; reflexivity] | discriminate]).
  rewrite <- negb_andb.
  destruct (dict_mem "sim_pars" d && dict_mem "epi_pars" d); cbn [negb].
  - split; [| reflexivity]. split; [intros [e He]; discriminate | discriminate].
  - split; [| discriminate]. split; [reflexivity | intros _; eexists; reflexivity].
Qed.

Lemma upload_pars_validation_witness :
  (fun _ : string => Ok three_key_document) "pars.json" = Ok three_key_document /\
  ((exists e, upload_pars (fun _ => Ok three_key_document) "pars.json" = Raise e)
     <-> has_groups three_key_document = false) /\
  (has_groups three_key_document = true ->
   upload_pars (fun _ => Ok three_key_document) "pars.json" = Ok three_key_document).
Proof.
  split; [reflexivity |].
  apply (upload_pars_validation (fun _ => Ok three_key_document) "pars.json").
  reflexivity.
Defined.

(** C9 (as stated) fails: a mapping with a third top-level key is not a
    mapping of exactly the two group keys, yet [upload_pars] accepts it. *)
Lemma upload_pars_accepts_extra_key :
  spec_exactly_two_groups three_key_document = false /\
  upload_pars (fun _ => Ok three_key_document) "pars.json" = Ok three_key_document.
Proof. split; reflexivity. Qed.

(** ** [run_sim] after the conversion *)

Section RunSimFacts.
Variable E : Engine.

(** [run_sim] in terms of its stages. *)
Lemma run_sim_stages (sp ep verbose : PyVal) :
  run_sim E sp ep verbose =
    let c := convert sp ep verbose in
    match conv_pars c with
    | None => Raise (NameError "local variable 'pars' referenced before assignment")
    | Some pars =>
        do seed <- seed_arg pars;
        let sim := fst (run E (configured E pars seed)) in
        let failure := snd (run E (configured E pars seed)) in
        do graphs <- plot_all E sim 0 (to_plot E) [];
        do summary <- make_summary E sim;
        Ok (mkRunResult (run_err (conv_err c) failure)
              (conv_sim_pars c) (conv_epi_pars c) graphs (make_files E sim) summary)
    end.
Proof.
  unfold run_sim, seed_arg, configured, run_err. cbv zeta.
  destruct (conv_pars (convert sp ep verbose)) as [pars |]; [| reflexivity].
  cbn [rbind]. destruct (lookup "seed" pars) as [seed | x]; [| reflexivity].
  cbn [rbind].
  destruct seed as [| b | z | f | s | l | d]; cbn [rbind];
    try (destruct (run E _) as [sim failure]; reflexivity);
    try (destruct (py_int _) as [z' | x]; cbn [rbind];
         [destruct (run E _) as [sim failure] |]; reflexivity).
Qed.

(** C3 (the code at the failing inputs). With the default arguments, or with
    two empty groups, [pars] holds no seed and [run_sim] raises [KeyError]
    at [pars['seed']], whatever the engine. *)
Theorem run_sim_default_arguments_raise (verbose : PyVal) :
  run_sim E VNone VNone verbose = Raise (KeyError "seed") /\
  conv_err (convert VNone VNone verbose)
    = "Parameter conversion failed! 'NoneType' object is not a mapping" /\
  run_sim E (VDict []) (VDict []) verbose = Raise (KeyError "seed").
Proof.
  rewrite !run_sim_stages. repeat split; vm_compute; reflexivity.
Qed.

(** C8. Whenever [run_sim] returns, its summary is read off the simulation
    object left by the run: [days] is the point count minus one, [cases]
    and [deaths] are the rounded last elements of the series
    [cum_exposed] and [cum_deaths]. *)
Theorem run_sim_summary (sp ep verbose : PyVal) (r : RunResult) :
  run_sim E sp ep verbose = Ok r ->
  exists pars seed sim ce cd x y,
    conv_pars (convert sp ep verbose) = Some pars /\
    seed_arg pars = Ok seed /\
    sim = fst (run E (configured E pars seed)) /\
    days (out_summary r) = npts E sim - 1 /\
    dict_get "cum_exposed" (results E sim) = Some ce /\
    last_item ce = Ok x /\
    py_round x = Ok (cases (out_summary r)) /\
    dict_get "cum_deaths" (results E sim) = Some cd /\
    last_item cd = Ok y /\
    py_round y = Ok (deaths (out_summary r)).
Proof.
  rewrite run_sim_stages. cbv zeta.
  destruct (conv_pars (convert sp ep verbose)) as [pars |] eqn:Hp; [| discriminate].
  destruct (seed_arg pars) as [seed | ?] eqn:Hs; [| discriminate]. cbn [rbind].
  set (sim := fst (run E (configured E pars seed))).
  destruct (plot_all E sim 0 (to_plot E) []) as [graphs | ?]; [| discriminate].
  cbn [rbind]. unfold make_summary, lookup.
  destruct (dict_get "cum_exposed" (results E sim)) as [ce |] eqn:Hce; [| discriminate].
  cbn [rbind].
  destruct (last_item ce) as [x | ?] eqn:Hx; [| discriminate]. cbn [rbind].
  destruct (py_round x) as [c | ?] eqn:Hc; [| discriminate]. cbn [rbind].
  destruct (dict_get "cum_deaths" (results E sim)) as [cd |] eqn:Hcd; [| discriminate].
  cbn [rbind].
  destruct (last_item cd) as [y | ?] eqn:Hy; [| discriminate]. cbn [rbind].
  destruct (py_round y) as [d | ?] eqn:Hd; [| discriminate]. cbn [rbind].
  intros H. inversion H. subst r. cbn.
  exists pars, seed, sim, ce, cd, x, y. repeat split; auto.
Qed.

(** C4 (as amended). When the engine's run raises, [err] holds the engine
    failure after the conversion errors, and assembly goes on over the
    simulation object the failed run left: if every plotted series and the
    two cumulative series can be read, [run_sim] returns a result with
    [days] equal to the point count minus one; an error raised while
    reading them is raised by [run_sim]. *)
Theorem run_sim_engine_failure (sp ep verbose : PyVal) (pars : dict PyVal)
    (seed : option Z) (sim : Sim E) (x : exn) :
  conv_pars (convert sp ep verbose) = Some pars ->
  seed_arg pars = Ok seed ->
  run E (configured E pars seed) = (sim, Some x) ->
  match plot_all E sim 0 (to_plot E) [], make_summary E sim with
  | Ok graphs, Ok summary =>
      exists r, run_sim E sp ep verbose = Ok r /\
        out_err r = conv_err (convert sp ep verbose)
                      ++ ("Sim run failed! (" ++ str_exn x ++ ")") /\
        out_err r <> "" /\
        out_graphs r = graphs /\
        out_summary r = summary /\
        days (out_summary r) = npts E sim - 1
  | Raise e, _ => run_sim E sp ep verbose = Raise e
  | Ok _, Raise e => run_sim E sp ep verbose = Raise e
  end.
Proof.
  intros Hp Hs Hr. rewrite run_sim_stages. cbv zeta.
  rewrite Hp, Hs. cbn [rbind]. rewrite Hr. cbn [fst snd].
  destruct (plot_all E sim 0 (to_plot E) []) as [graphs | e]; [| reflexivity].
  cbn [rbind].
  destruct (make_summary E sim) as [summary | e] eqn:Hsum; [| reflexivity].
  cbn [rbind]. eexists. split; [reflexivity |].
  cbn [out_err out_graphs out_summary run_err].
  split; [reflexivity |]. split.
  { destruct (conv_err (convert sp ep verbose)); simpl; discriminate. }
  split; [reflexivity |]. split; [reflexivity |].
  unfold make_summary in Hsum.
  repeat match type of Hsum with
         | rbind ?c _ = _ => destruct c; cbn [rbind] in Hsum; [| discriminate]
         end.
  inversion Hsum. reflexivity.
Qed.

End RunSimFacts.

Lemma run_sim_engine_failure_witness :
  exists r,
    run_sim late_failing_engine full_sim_pars full_epi_pars (VBool true) = Ok r /\
    out_err r = "Sim run failed! (boom)" /\
    days (out_summary r) = 2.
Proof.
  assert (Hp : conv_pars (convert full_sim_pars full_epi_pars (VBool true))
               = Some full_pars) by (vm_compute; reflexivity).
  assert (Hs : seed_arg full_pars = Ok (Some 1)) by (vm_compute; reflexivity).
  assert (Hr : run late_failing_engine (configured late_failing_engine full_pars (Some 1))
               = (fst (run late_failing_engine
                         (configured late_failing_engine full_pars (Some 1))),
                  Some (ValueError "boom"))) by reflexivity.
  pose proof (run_sim_engine_failure late_failing_engine
                full_sim_pars full_epi_pars (VBool true) full_pars (Some 1) _ _
                Hp Hs Hr) as H.
  vm_compute in H. destruct H as [r [H1 [H2 [_ [_ [_ H3]]]]]].
  exists r. split; [| split].
  - vm_compute. exact H1.
  - exact H2.
  - exact H3.
Defined.

(** C4 (as stated) fails: an engine whose failed run leaves no results makes
    [run_sim] raise while it assembles the summary. *)
Lemma run_sim_raises_on_absent_output :
  snd (run early_failing_engine (new_Sim early_failing_engine))
    = Some (ValueError "boom") /\
  run_sim early_failing_engine full_sim_pars full_epi_pars (VBool true)
    = Raise (KeyError "cum_exposed").
Proof. split; vm_compute; reflexivity. Qed.

(** ** The conversion loop *)

Lemma get_defaults_merged : get_defaults None true = Ok (VDict default_catalog).
Proof. vm_compute. reflexivity. Qed.

Lemma default_catalog_bounds (key : string) (spec : PyVal) :
  dict_get key default_catalog = Some spec ->
  exists lo hi, entry_bounds spec = Ok (lo, hi) /\ fle lo hi = true.
Proof.
  intros H. apply dict_get_in in H.
  assert (Hall : forallb (fun kv => bounds_ordered (snd kv)) default_catalog = true)
    by (vm_compute; reflexivity).
  rewrite forallb_forall in Hall. specialize (Hall _ H). cbn [snd] in Hall.
  unfold bounds_ordered in Hall.
  destruct (entry_bounds spec) as [[lo hi] | ?]; [| discriminate].
  now exists lo, hi.
Qed.

Lemma bounds_ordered_fle (key : string) (lo hi : float) :
  bounds key = Some (lo, hi) -> fle lo hi = true.
Proof.
  unfold bounds. destruct (dict_get key default_catalog) as [spec |] eqn:E; [| discriminate].
  destruct (default_catalog_bounds key spec E) as [lo' [hi' [Hb Hle]]].
  rewrite Hb. intros H. inversion H. now subst.
Qed.

(** The value assigned for a key, read off the catalog bounds. *)
Lemma key_value_catalog (key : string) (entry : PyVal) :
  key_value (VDict default_catalog) key entry =
    match bounds key with
    | None => Raise (KeyError key)
    | Some (lo, hi) => do best <- getitem entry "best"; reconciled lo hi best
    end.
Proof.
  unfold key_value, bounds. cbn [getitem]. unfold lookup at 1 2.
  destruct (dict_get key default_catalog) as [spec |] eqn:E; [| reflexivity].
  destruct (default_catalog_bounds key spec E) as [lo [hi [Hb _]]].
  rewrite Hb. unfold entry_bounds in Hb. cbn [rbind].
  destruct (getitem spec "min") as [mn |]; cbn [rbind] in *; [| discriminate].
  destruct (getitem spec "max") as [mx |]; cbn [rbind] in *; [| discriminate].
  destruct (as_float mn) as [lo' |] eqn:E1; cbn [rbind] in *; [| discriminate].
  destruct (as_float mx) as [hi' |] eqn:E2; cbn [rbind] in *; [| discriminate].
  inversion Hb. subst lo' hi'.
  destruct (getitem entry "best") as [best |]; cbn [rbind]; [| reflexivity].
  unfold reconciled. destruct (truthy best); [| reflexivity].
  destruct (py_float best); cbn [rbind]; reflexivity.
Qed.

(** The loop body: compute the value, assign it, write it back. *)
Lemma convert_key_stages (defaults : PyVal) (key : string) (entry : PyVal) (st : St) :
  convert_key defaults key entry st =
    match key_value defaults key entry with
    | Raise x => (st, Raise x)
    | Ok v => write_back key v (set_par key v st)
    end.
Proof.
  unfold convert_key, key_value, mbind, lift, get, put.
  destruct (do d <- getitem defaults key; getitem d "min") as [minval |]; [| reflexivity].
  destruct (do d <- getitem defaults key; getitem d "max") as [maxval |]; [| reflexivity].
  cbn [rbind].
  destruct (getitem entry "best") as [best |]; [| reflexivity].
  cbn [rbind].
  match goal with
  | |- match ?r with Ok _ => _ | Raise _ => _ end = _ => destruct r as [v | x]
  end; [| reflexivity].
  cbn [pars sim_pars epi_pars]. unfold lookup at 1. rewrite dict_get_set_eq.
  unfold write_back, set_best, set_par. cbn [pars sim_pars epi_pars].
  destruct (dict_mem key (sim_pars st)).
  - destruct (lookup key (sim_pars st)) as [e |]; cbn [rbind]; [| reflexivity].
    destruct (setitem e "best" v); reflexivity.
  - destruct (lookup key (epi_pars st)) as [e |]; cbn [rbind]; [| reflexivity].
    destruct (setitem e "best" v); reflexivity.
Qed.

Lemma for_items_app {V : Type} (l1 l2 : dict V) (body : string -> V -> M unit) (st : St) :
  for_items (l1 ++ l2)%list body st =
    match for_items l1 body st with
    | (st', Ok _) => for_items l2 body st'
    | (st', Raise x) => (st', Raise x)
    end.
Proof.
  revert st. induction l1 as [| [k v] r IH]; intros st; cbn [for_items app].
  - reflexivity.
  - unfold mbind. destruct (body k v st) as [st1 [[] | x]]; [apply IH | reflexivity].
Qed.

Lemma write_back_pars (key : string) (v : PyVal) (st : St) :
  pars (fst (write_back key v st)) = pars st.
Proof.
  unfold write_back.
  destruct (dict_mem key (sim_pars st)).
  - destruct (set_best key v (sim_pars st)); reflexivity.
  - destruct (set_best key v (epi_pars st)); reflexivity.
Qed.

Lemma set_best_get (key : string) (v : PyVal) (g g' : dict PyVal) (k : string) :
  set_best key v g = Ok g' ->
  k <> key -> dict_get k g' = dict_get k g.
Proof.
  unfold set_best. destruct (lookup key g) as [e |]; cbn [rbind]; [| discriminate].
  destruct (setitem e "best" v) as [e' |]; cbn [rbind]; [| discriminate].
  intros H Hne. inversion H. now apply dict_get_set_neq.
Qed.

Lemma set_best_keys (key : string) (v : PyVal) (g g' : dict PyVal) :
  set_best key v g = Ok g' -> keys g' = keys g.
Proof.
  unfold set_best, lookup. destruct (dict_get key g) as [e |] eqn:E; cbn [rbind]; [| discriminate].
  destruct (setitem e "best" v) as [e' |]; cbn [rbind]; [| discriminate].
  intros H. inversion H. rewrite keys_dict_set. unfold dict_mem. now rewrite E.
Qed.

(** One pass of the loop body leaves every other key as it was. *)
Lemma convert_key_other (defaults : PyVal) (key : string) (entry : PyVal) (st st' : St)
    (r : Res unit) (k : string) :
  convert_key defaults key entry st = (st', r) ->
  k <> key ->
  dict_get k (pars st') = dict_get k (pars st) /\
  dict_get k (sim_pars st') = dict_get k (sim_pars st) /\
  dict_get k (epi_pars st') = dict_get k (epi_pars st).
Proof.
  rewrite convert_key_stages. intros H Hne.
  destruct (key_value defaults key entry) as [v | x].
  - unfold write_back, set_par in H. cbn [pars sim_pars epi_pars] in H.
    destruct (dict_mem key (sim_pars st)).
    + destruct (set_best key v (sim_pars st)) as [g |] eqn:Eg;
        inversion H; subst; cbn [pars sim_pars epi_pars];
        rewrite (dict_get_set_neq k key v (pars st) Hne); repeat split; auto.
      eapply set_best_get; eauto.
    + destruct (set_best key v (epi_pars st)) as [g |] eqn:Eg;
        inversion H; subst; cbn [pars sim_pars epi_pars];
        rewrite (dict_get_set_neq k key v (pars st) Hne); repeat split; auto.
      eapply set_best_get; eauto.
  - inversion H. subst. auto.
Qed.

(** The loop leaves the keys it does not iterate over as they were. *)
Lemma for_items_other (defaults : PyVal) (items : dict PyVal) (st st' : St)
    (r : Res unit) (k : string) :
  for_items items (convert_key defaults) st = (st', r) ->
  ~ In k (keys items) ->
  dict_get k (pars st') = dict_get k (pars st) /\
  dict_get k (sim_pars st') = dict_get k (sim_pars st) /\
  dict_get k (epi_pars st') = dict_get k (epi_pars st).
Proof.
  revert st. induction items as [| [key entry] rest IH]; intros st H Hni.
  - inversion H. subst. auto.
  - cbn [for_items] in H. unfold mbind in H.
    assert (Hne : k <> key) by (intros ->; apply Hni; now left).
    assert (Hni' : ~ In k (keys rest)) by (intros Hin; apply Hni; now right).
    destruct (convert_key defaults key entry st) as [st1 r1] eqn:E1.
    destruct (convert_key_other _ _ _ _ _ _ k E1 Hne) as [Hp [Hs He]].
    destruct r1 as [[] | x].
    + destruct (IH st1 H Hni') as [Hp' [Hs' He']].
      rewrite Hp', Hs', He'. auto.
    + inversion H. subst. auto.
Qed.

(** Every value found in [pars] was there at the start or is the value
    computed for one of the iterated entries. *)
Lemma for_items_pars (defaults : PyVal) (items : dict PyVal) (st st' : St)
    (r : Res unit) (k : string) (x : PyVal) :
  for_items items (convert_key defaults) st = (st', r) ->
  dict_get k (pars st') = Some x ->
  dict_get k (pars st) = Some x \/
  exists entry, In (k, entry) items /\ key_value defaults k entry = Ok x.
Proof.
  revert st. induction items as [| [key entry] rest IH]; intros st H Hx.
  - inversion H. subst. now left.
  - cbn [for_items] in H. unfold mbind in H.
    destruct (convert_key defaults key entry st) as [st1 r1] eqn:E1.
    assert (Hst1 : dict_get k (pars st1) = Some x ->
                   dict_get k (pars st) = Some x \/
                   exists entry0, In (k, entry0) ((key, entry) :: rest) /\
                                  key_value defaults k entry0 = Ok x).
    { intros Hx1. rewrite convert_key_stages in E1.
      destruct (key_value defaults key entry) as [v |] eqn:Ev.
      - assert (Hp : pars st1 = dict_set key v (pars st)).
        { pose proof (write_back_pars key v (set_par key v st)) as Hw.
          rewrite E1 in Hw. exact Hw. }
        rewrite Hp, dict_get_set in Hx1.
        destruct (String.eqb k key) eqn:Ek.
        + apply String.eqb_eq in Ek. subst k. inversion Hx1. subst x.
          right. exists entry. split; [now left | assumption].
        + now left.
      - inversion E1. subst. now left. }
    destruct r1 as [[] | e].
    + destruct (IH st1 H Hx) as [H1 | [entry0 [Hin Hv]]].
      * exact (Hst1 H1).
      * right. exists entry0. split; [now right | assumption].
    + inversion H. subst. exact (Hst1 Hx).
Qed.

(** When the loop completes, every iterated key has its value in [pars]. *)
Lemma for_items_done (defaults : PyVal) (items : dict PyVal) (st st' : St) :
  NoDup (keys items) ->
  for_items items (convert_key defaults) st = (st', Ok tt) ->
  forall k entry, In (k, entry) items ->
    exists x, key_value defaults k entry = Ok x /\ dict_get k (pars st') = Some x.
Proof.
  revert st. induction items as [| [key entry] rest IH]; intros st Hnd H k e Hin.
  - destruct Hin.
  - cbn [for_items] in H. unfold mbind in H.
    destruct (convert_key defaults key entry st) as [st1 r1] eqn:E1.
    destruct r1 as [[] | x]; [| discriminate].
    inversion Hnd as [| ? ? Hni Hnd']. subst.
    destruct Hin as [Heq | Hin].
    + inversion Heq. subst k e.
      destruct (for_items_other _ _ _ _ _ key H Hni) as [Hp _].
      rewrite convert_key_stages in E1.
      destruct (key_value defaults key entry) as [v |] eqn:Ev; [| discriminate].
      exists v. split; [reflexivity |]. rewrite Hp.
      pose proof (write_back_pars key v (set_par key v st)) as Hw.
      rewrite E1 in Hw. cbn [fst] in Hw. rewrite Hw. unfold set_par. cbn [pars].
      apply dict_get_set_eq.
    + exact (IH st1 Hnd' H k e Hin).
Qed.

(** ** The [try] block as a whole *)

Lemma convert_groups (s e : dict PyVal) (verbose : PyVal) :
  convert (VDict s) (VDict e) verbose =
    let (st, r) := for_items (dict_merge s e) (convert_key (VDict default_catalog))
                     (start s e verbose) in
    mkConv (Some (pars st)) (VDict (sim_pars st)) (VDict (epi_pars st))
           (match r with Ok _ => None | Raise x => Some x end).
Proof. unfold convert. rewrite get_defaults_merged. reflexivity. Qed.

(** A value of [pars] other than the verbosity flag is the value computed
    for the entry of its key in the merged groups. *)
Lemma conv_pars_value (s e : dict PyVal) (verbose : PyVal) (p : dict PyVal)
    (key : string) (x : PyVal) :
  conv_pars (convert (VDict s) (VDict e) verbose) = Some p ->
  dict_get key p = Some x ->
  key <> "verbose" ->
  exists entry, dict_get key (dict_merge s e) = Some entry /\
                key_value (VDict default_catalog) key entry = Ok x.
Proof.
  rewrite convert_groups.
  destruct (for_items _ _ _) as [st r] eqn:E. cbn [conv_pars].
  intros Hp Hx Hne. inversion Hp. subst p.
  destruct (for_items_pars _ _ _ _ _ key x E Hx) as [H0 | [entry [Hin Hv]]].
  - unfold start in H0. cbn [pars dict_get] in H0.
    apply String.eqb_neq in Hne. rewrite Hne in H0. discriminate.
  - exists entry. split; [| assumption].
    apply in_dict_get; [apply nodup_dict_merge | assumption].
Qed.

(** When the [try] block ends without an exception, every key of the merged
    groups has its value in [pars]. *)
Lemma conv_done (s e : dict PyVal) (verbose : PyVal) (p : dict PyVal)
    (key : string) (entry : PyVal) :
  conv_exn (convert (VDict s) (VDict e) verbose) = None ->
  conv_pars (convert (VDict s) (VDict e) verbose) = Some p ->
  dict_get key (dict_merge s e) = Some entry ->
  exists x, key_value (VDict default_catalog) key entry = Ok x /\
            dict_get key p = Some x.
Proof.
  rewrite convert_groups.
  destruct (for_items _ _ _) as [st r] eqn:E. cbn [conv_pars conv_exn].
  intros Hr Hp Hin. inversion Hp. subst p.
  destruct r as [[] | ?]; [| discriminate].
  apply dict_get_in in Hin.
  exact (for_items_done _ _ _ _ (nodup_dict_merge s e) E key entry Hin).
Qed.

(** The [try] block stops at the first key whose value cannot be computed. *)
Lemma convert_stops (s e : dict PyVal) (verbose : PyVal)
    (pre post : dict PyVal) (key : string) (entry : PyVal) (st1 : St) (x : exn) :
  dict_merge s e = (pre ++ (key, entry) :: post)%list ->
  for_items pre (convert_key (VDict default_catalog)) (start s e verbose) = (st1, Ok tt) ->
  key_value (VDict default_catalog) key entry = Raise x ->
  convert (VDict s) (VDict e) verbose =
    mkConv (Some (pars st1)) (VDict (sim_pars st1)) (VDict (epi_pars st1)) (Some x).
Proof.
  intros Hm Hpre Hv. rewrite convert_groups, Hm, for_items_app, Hpre.
  cbn [for_items]. unfold mbind. rewrite convert_key_stages, Hv. reflexivity.
Qed.

Lemma key_value_float_or_none (defaults : PyVal) (key : string) (entry x : PyVal) :
  key_value defaults key entry = Ok x -> x = VNone \/ exists f, x = VFloat f.
Proof.
  unfold key_value.
  destruct (do d <- getitem defaults key; getitem d "min") as [mn |]; [| discriminate].
  destruct (do d <- getitem defaults key; getitem d "max") as [mx |]; [| discriminate].
  cbn [rbind].
  destruct (getitem entry "best") as [best |]; cbn [rbind]; [| discriminate].
  destruct (truthy best).
  - destruct (py_float best); cbn [rbind]; [| discriminate].
    destruct (as_float mn); cbn [rbind]; [| discriminate].
    destruct (as_float mx); cbn [rbind]; [| discriminate].
    intros H. inversion H. right. eexists. reflexivity.
  - intros H. inversion H. now left.
Qed.

(** C1. Every value that the conversion assigns for a parameter key whose
    override [best] is truthy is the median of [float(best)] and the catalog
    bounds of the key; with bounds [lo <= hi] this is [best] inside the
    bounds, [lo] below them and [hi] above them. A falsy [best] gives null.
    When the conversion ends without an exception every key of the request
    has been assigned. *)
Theorem reconciled_value_is_median (s e : dict PyVal) (verbose : PyVal)
    (p : dict PyVal) :
  conv_pars (convert (VDict s) (VDict e) verbose) = Some p ->
  (forall key x, dict_get key p = Some x -> key <> "verbose" ->
     exists entry best lo hi,
       dict_get key (dict_merge s e) = Some entry /\
       bounds key = Some (lo, hi) /\ fle lo hi = true /\
       getitem entry "best" = Ok best /\
       if truthy best then
         exists v, py_float best = Ok v /\
           x = VFloat (median [v; lo; hi]) /\
           (fle lo v && fle v hi = true -> x = VFloat v) /\
           (flt v lo = true -> x = VFloat lo) /\
           (flt hi v = true -> x = VFloat hi)
       else x = VNone) /\
  (conv_exn (convert (VDict s) (VDict e) verbose) = None ->
   forall key entry, dict_get key (dict_merge s e) = Some entry ->
     exists x, dict_get key p = Some x).
Proof.
  intros Hp. split.
  - intros key x Hx Hne.
    destruct (conv_pars_value s e verbose p key x Hp Hx Hne) as [entry [Hin Hv]].
    rewrite key_value_catalog in Hv.
    destruct (bounds key) as [[lo hi] |] eqn:Hb; [| discriminate].
    pose proof (bounds_ordered_fle key lo hi Hb) as Hle.
    destruct (getitem entry "best") as [best |] eqn:Hbest; cbn [rbind] in Hv; [| discriminate].
    exists entry, best, lo, hi. repeat (split; [assumption || reflexivity |]).
    unfold reconciled in Hv. destruct (truthy best).
    + destruct (py_float best) as [v |]; cbn [rbind] in Hv; [| discriminate].
      inversion Hv. subst x. exists v. split; [reflexivity |]. split; [reflexivity |].
      destruct (median3_clamp v lo hi Hle) as [H1 [H2 H3]].
      repeat split; intros H; f_equal; auto.
    + now inversion Hv.
  - intros Hx key entry Hin.
    destruct (conv_done s e verbose p key entry Hx Hp Hin) as [x [_ H]].
    now exists x.
Qed.

Lemma reconciled_value_is_median_witness :
  conv_pars (convert (VDict clamp_request) (VDict []) (VBool true))
    = Some [("verbose", VBool true); ("n", VFloat (of_Z 10000));
            ("n_days", VFloat (of_Z 10)); ("beta", VNone)] /\
  exists entry best lo hi,
    dict_get "n" (dict_merge clamp_request []) = Some entry /\
    bounds "n" = Some (lo, hi) /\ fle lo hi = true /\
    getitem entry "best" = Ok best /\
    if truthy best then
      exists v, py_float best = Ok v /\
        VFloat (of_Z 10000) = VFloat (median [v; lo; hi]) /\
        (fle lo v && fle v hi = true -> VFloat (of_Z 10000) = VFloat v) /\
        (flt v lo = true -> VFloat (of_Z 10000) = VFloat lo) /\
        (flt hi v = true -> VFloat (of_Z 10000) = VFloat hi)
    else VFloat (of_Z 10000) = VNone.
Proof.
  assert (Hp : conv_pars (convert (VDict clamp_request) (VDict []) (VBool true))
               = Some [("verbose", VBool true); ("n", VFloat (of_Z 10000));
                       ("n_days", VFloat (of_Z 10)); ("beta", VNone)])
    by (vm_compute; reflexivity).
  split; [exact Hp |].
  apply (proj1 (reconciled_value_is_median clamp_request [] (VBool true) _ Hp) "n").
  - reflexivity.
  - discriminate.
Defined.



(** C2 (as amended). When the catalog has no entry for a key, the [try]
    block stops at that key: the failure is recorded in [err] with the key's
    name, the keys iterated before it have been reconciled, and that key and
    the keys after it are left unprocessed, with no value in [pars] and
    their entries unchanged. *)
Theorem conversion_stops_at_unknown_key (s e : dict PyVal) (verbose : PyVal)
    (pre post : dict PyVal) (key : string) (entry : PyVal) (st1 : St) :
  dict_merge s e = (pre ++ (key, entry) :: post)%list ->
  bounds key = None ->
  for_items pre (convert_key (VDict default_catalog)) (start s e verbose) = (st1, Ok tt) ->
  convert (VDict s) (VDict e) verbose =
    mkConv (Some (pars st1)) (VDict (sim_pars st1)) (VDict (epi_pars st1))
           (Some (KeyError key)) /\
  conv_err (convert (VDict s) (VDict e) verbose)
    = "Parameter conversion failed! " ++ repr_str key /\
  (forall k en, In (k, en) pre ->
     exists x, key_value (VDict default_catalog) k en = Ok x /\
               dict_get k (pars st1) = Some x) /\
  (forall k en, In (k, en) ((key, entry) :: post) -> k <> "verbose" ->
     dict_get k (pars st1) = None /\
     dict_get k (sim_pars st1) = dict_get k s /\
     dict_get k (epi_pars st1) = dict_get k e).
Proof.
  intros Hm Hb Hpre.
  assert (Hv : key_value (VDict default_catalog) key entry = Raise (KeyError key)).
  { rewrite key_value_catalog. now rewrite Hb. }
  pose proof (convert_stops s e verbose pre post key entry st1 _ Hm Hpre Hv) as Hc.
  pose proof (nodup_dict_merge s e) as Hnd. rewrite Hm in Hnd.
  unfold keys in Hnd. rewrite map_app in Hnd.
  split; [assumption |]. split; [now rewrite Hc |]. split.
  - apply NoDup_app_remove_r in Hnd.
    exact (for_items_done _ _ _ _ Hnd Hpre).
  - intros k en Hin Hne.
    assert (Hni : ~ In k (keys pre)).
    { intros Hk.
      assert (Hk' : In k (map fst ((key, entry) :: post))).
      { change k with (fst (k, en)). now apply in_map. }
      exact (nodup_app_disjoint _ _ k Hnd Hk Hk'). }
    destruct (for_items_other _ _ _ _ _ k Hpre Hni) as [Hp [Hs He]].
    unfold start in Hp, Hs, He. cbn [pars sim_pars epi_pars dict_get] in Hp, Hs, He.
    apply String.eqb_neq in Hne. rewrite Hne in Hp. auto.
Qed.

Lemma conversion_stops_at_unknown_key_witness :
  conv_err (convert (VDict unknown_middle_request) (VDict []) VNone)
    = "Parameter conversion failed! 'bogus'" /\
  conv_pars (convert (VDict unknown_middle_request) (VDict []) VNone)
    = Some [("verbose", VNone); ("n", VFloat (of_Z 10000))] /\
  conv_sim_pars (convert (VDict unknown_middle_request) (VDict []) VNone)
    = VDict [("n", override (VFloat (of_Z 10000))); ("bogus", override (VInt 5));
             ("n_days", override (VInt 30))].
Proof.
  assert (Hm : dict_merge unknown_middle_request []
               = ([("n", override (VInt 20000))]
                    ++ ("bogus", override (VInt 5)) :: [("n_days", override (VInt 30))])%list)
    by reflexivity.
  assert (Hb : bounds "bogus" = None) by reflexivity.
  assert (Hpre : for_items [("n", override (VInt 20000))]
                   (convert_key (VDict default_catalog))
                   (start unknown_middle_request [] VNone)
                 = (mkSt [("verbose", VNone); ("n", VFloat (of_Z 10000))]
                         [("n", override (VFloat (of_Z 10000)));
                          ("bogus", override (VInt 5)); ("n_days", override (VInt 30))]
                         [], Ok tt))
    by (vm_compute; reflexivity).
  destruct (conversion_stops_at_unknown_key unknown_middle_request [] VNone
              _ _ _ _ _ Hm Hb Hpre) as [Hc [He _]].
  split; [exact He |]. rewrite Hc. split; reflexivity.
Defined.

(** C2 (as stated) fails: the unknown key comes first, and the valid key
    after it is not reconciled: it gets no value and its entry still holds
    the out-of-range override. *)
Lemma conversion_skips_keys_after_failure :
  conv_exn (convert (VDict unknown_first_request) (VDict []) VNone)
    = Some (KeyError "bogus") /\
  bounds "n" = Some (of_Z 1, of_Z 10000) /\
  dict_get "n" unknown_first_request = Some (override (VInt 20000)) /\
  conv_pars (convert (VDict unknown_first_request) (VDict []) VNone)
    = Some [("verbose", VNone)] /\
  conv_sim_pars (convert (VDict unknown_first_request) (VDict []) VNone)
    = VDict unknown_first_request.
Proof. vm_compute. repeat split; reflexivity. Qed.

Lemma run_sim_summary_witness :
  run_sim working_engine full_sim_pars full_epi_pars (VBool true) = Ok full_result /\
  days (out_summary full_result) = 2 /\
  cases (out_summary full_result) = 20 /\
  deaths (out_summary full_result) = 2.
Proof.
  assert (Hr : run_sim working_engine full_sim_pars full_epi_pars (VBool true)
               = Ok full_result) by (vm_compute; reflexivity).
  split; [exact Hr |].
  destruct (run_sim_summary working_engine full_sim_pars full_epi_pars (VBool true)
              full_result Hr)
    as [pars [seed [sim [ce [cd [x [y H]]]]]]].
  repeat split; reflexivity.
Defined.

(** ** Reconciling a reconciled request *)

Lemma dict_update_cons {V : Type} (d : dict V) (k : string) (v : V) (r : dict V) :
  dict_update d ((k, v) :: r) = dict_update (dict_set k v d) r.
Proof. reflexivity. Qed.

Lemma dict_get_update {V : Type} (k : string) (d e : dict V) :
  NoDup (keys e) ->
  dict_get k (dict_update d e) =
    match dict_get k e with Some v => Some v | None => dict_get k d end.
Proof.
  revert d. induction e as [| [k0 v0] r IH]; intros d Hnd; [reflexivity |].
  inversion Hnd as [| ? ? Hni Hnd']. subst.
  rewrite dict_update_cons, (IH _ Hnd'). cbn [dict_get].
  destruct (String.eqb k k0) eqn:Ek.
  - apply String.eqb_eq in Ek. subst k0.
    apply dict_get_none in Hni. rewrite Hni. apply dict_get_set_eq.
  - apply String.eqb_neq in Ek. now rewrite (dict_get_set_neq k k0 v0 d Ek).
Qed.

Lemma dict_get_merge {V : Type} (k : string) (a b : dict V) :
  NoDup (keys a) -> NoDup (keys b) ->
  dict_get k (dict_merge a b) =
    match dict_get k b with Some v => Some v | None => dict_get k a end.
Proof.
  intros Ha Hb. unfold dict_merge.
  rewrite (dict_get_update k _ b Hb), (dict_get_update k [] a Ha).
  cbn [dict_get]. now destruct (dict_get k a).
Qed.

Lemma keys_dict_merge {V : Type} (a b a' b' : dict V) :
  keys a' = keys a -> keys b' = keys b ->
  keys (dict_merge a' b') = keys (dict_merge a b).
Proof.
  intros Ha Hb. unfold dict_merge.
  apply keys_dict_update; [| assumption].
  now apply keys_dict_update.
Qed.

Lemma mkSt_eta (st : St) : mkSt (pars st) (sim_pars st) (epi_pars st) = st.
Proof. now destruct st. Qed.

Lemma setitem_dict (en en' x : PyVal) :
  setitem en "best" x = Ok en' ->
  exists d, en = VDict d /\ en' = VDict (dict_set "best" x d).
Proof.
  destruct en; cbn [setitem]; try discriminate.
  intros H. inversion H. eexists. split; reflexivity.
Qed.

Lemma set_best_rewritten (key : string) (x : PyVal) (g g' : dict PyVal) :
  set_best key x g = Ok g' ->
  rewritten x (dict_get key g) (dict_get key g').
Proof.
  unfold set_best, lookup.
  destruct (dict_get key g) as [en |]; cbn [rbind]; [| discriminate].
  destruct (setitem en "best" x) as [en' |] eqn:Es; cbn [rbind]; [| discriminate].
  intros H. inversion H. subst g'.
  destruct (setitem_dict _ _ _ Es) as [d [-> ->]].
  exists d. split; [reflexivity | apply dict_get_set_eq].
Qed.

Lemma set_best_stable (key : string) (x : PyVal) (g d : dict PyVal) :
  dict_get key g = Some (VDict d) ->
  dict_get "best" d = Some x ->
  set_best key x g = Ok g.
Proof.
  intros Hg Hd. unfold set_best, lookup. rewrite Hg. cbn [rbind setitem].
  rewrite (dict_set_same "best" x d Hd). now rewrite (dict_set_same key _ g Hg).
Qed.

Lemma for_items_keys (defaults : PyVal) (items : dict PyVal) (st st' : St) (r : Res unit) :
  for_items items (convert_key defaults) st = (st', r) ->
  keys (sim_pars st') = keys (sim_pars st) /\ keys (epi_pars st') = keys (epi_pars st).
Proof.
  revert st. induction items as [| [key entry] rest IH]; intros st H.
  - inversion H. subst. auto.
  - cbn [for_items] in H. unfold mbind in H.
    destruct (convert_key defaults key entry st) as [st1 r1] eqn:E1.
    assert (H1 : keys (sim_pars st1) = keys (sim_pars st) /\
                 keys (epi_pars st1) = keys (epi_pars st)).
    { rewrite convert_key_stages in E1.
      destruct (key_value defaults key entry) as [v |]; [| inversion E1; subst; auto].
      unfold write_back, set_par in E1. cbn [pars sim_pars epi_pars] in E1.
      destruct (dict_mem key (sim_pars st)).
      - destruct (set_best key v (sim_pars st)) as [g |] eqn:Eg;
          inversion E1; subst; cbn [sim_pars epi_pars]; split; auto.
        eapply set_best_keys; eauto.
      - destruct (set_best key v (epi_pars st)) as [g |] eqn:Eg;
          inversion E1; subst; cbn [sim_pars epi_pars]; split; auto.
        eapply set_best_keys; eauto. }
    destruct H1 as [Hs He].
    destruct r1 as [[] | x].
    + destruct (IH st1 H) as [Hs' He']. split; congruence.
    + inversion H. subst. auto.
Qed.

(** [pars] after a loop that completes. *)
Lemma for_items_ok_pars (defaults : PyVal) (items : dict PyVal) (st st' : St) :
  for_items items (convert_key defaults) st = (st', Ok tt) ->
  pars st' = dict_update (pars st) (vals defaults items).
Proof.
  revert st. induction items as [| [key entry] rest IH]; intros st H.
  - inversion H. reflexivity.
  - cbn [for_items] in H. unfold mbind in H.
    destruct (convert_key defaults key entry st) as [st1 r1] eqn:E1.
    destruct r1 as [[] | x]; [| discriminate].
    rewrite (IH st1 H). cbn [vals map fst snd]. rewrite dict_update_cons.
    rewrite convert_key_stages in E1. unfold val_of. cbn [fst snd].
    destruct (key_value defaults key entry) as [v |]; [| discriminate].
    pose proof (write_back_pars key v (set_par key v st)) as Hw.
    rewrite E1 in Hw. cbn [fst] in Hw. rewrite Hw. reflexivity.
Qed.

(** What a completed loop has done to the entries of an iterated key. *)
Lemma for_items_entry (defaults : PyVal) (items : dict PyVal) (st st' : St)
    (k : string) (entry : PyVal) :
  NoDup (keys items) ->
  for_items items (convert_key defaults) st = (st', Ok tt) ->
  In (k, entry) items ->
  exists x, key_value defaults k entry = Ok x /\
    if dict_mem k (sim_pars st) then
      rewritten x (dict_get k (sim_pars st)) (dict_get k (sim_pars st')) /\
      dict_get k (epi_pars st') = dict_get k (epi_pars st)
    else
      dict_get k (sim_pars st') = None /\
      rewritten x (dict_get k (epi_pars st)) (dict_get k (epi_pars st')).
Proof.
  revert st. induction items as [| [key en] rest IH]; intros st Hnd H Hin.
  - destruct Hin.
  - cbn [for_items] in H. unfold mbind in H.
    destruct (convert_key defaults key en st) as [st1 r1] eqn:E1.
    destruct r1 as [[] | x]; [| discriminate].
    inversion Hnd as [| ? ? Hni Hnd']. subst.
    destruct Hin as [Heq | Hin].
    + inversion Heq. subst key en. clear Heq.
      destruct (for_items_other _ _ _ _ _ k H Hni) as [_ [Hs He]].
      rewrite Hs, He.
      rewrite convert_key_stages in E1.
      destruct (key_value defaults k entry) as [v |]; [| discriminate].
      exists v. split; [reflexivity |].
      unfold write_back, set_par in E1. cbn [pars sim_pars epi_pars] in E1.
      destruct (dict_mem k (sim_pars st)) eqn:Em.
      * destruct (set_best k v (sim_pars st)) as [g |] eqn:Eg; [| discriminate].
        inversion E1. subst st1. cbn [sim_pars epi_pars].
        split; [now apply set_best_rewritten | reflexivity].
      * destruct (set_best k v (epi_pars st)) as [g |] eqn:Eg; [| discriminate].
        inversion E1. subst st1. cbn [sim_pars epi_pars].
        split; [| now apply set_best_rewritten].
        unfold dict_mem in Em. now destruct (dict_get k (sim_pars st)).
    + assert (Hne : k <> key).
      { intros ->. apply Hni. change key with (fst (key, entry)). now apply in_map. }
      destruct (convert_key_other _ _ _ _ _ _ k E1 Hne) as [_ [Hs He]].
      destruct (IH st1 Hnd' H Hin) as [x [Hv Hx]].
      exists x. split; [assumption |].
      unfold dict_mem in *. rewrite Hs, He in Hx. exact Hx.
Qed.

Lemma truthy_nonzero (f : float) : VFloat f <> zero -> truthy (VFloat f) = true.
Proof.
  destruct f as [| b | q]; cbn [truthy]; try reflexivity.
  intros H. apply negb_true_iff. destruct (Qc_eqb q 0%Qc) eqn:E; [| reflexivity].
  exfalso. apply H. unfold zero. do 2 f_equal.
  apply Qc_is_canon. now apply Qeq_bool_iff.
Qed.

(** Per-key reconciliation maps a reconciled value other than zero to itself. *)
Lemma reconciled_fixed (lo hi : float) (best x : PyVal) :
  fle lo hi = true ->
  reconciled lo hi best = Ok x ->
  x <> zero ->
  reconciled lo hi x = Ok x.
Proof.
  intros Hle Hx Hnz. unfold reconciled in Hx.
  destruct (truthy best).
  - destruct (py_float best) as [b |]; cbn [rbind] in Hx; [| discriminate].
    inversion Hx. subst x. unfold reconciled.
    rewrite (truthy_nonzero _ Hnz). cbn [py_float rbind].
    now rewrite median3_fixed.
  - inversion Hx. reflexivity.
Qed.

(** An entry whose [best] holds the value computed for its key gives that
    value again. *)
Lemma key_value_fixed (key : string) (entry entry' x : PyVal) :
  key_value (VDict default_catalog) key entry = Ok x ->
  x <> zero ->
  getitem entry' "best" = Ok x ->
  key_value (VDict default_catalog) key entry' = Ok x.
Proof.
  rewrite !key_value_catalog. intros Hv Hnz Hb.
  destruct (bounds key) as [[lo hi] |] eqn:Eb; [| discriminate].
  rewrite Hb. cbn [rbind].
  destruct (getitem entry "best") as [best |]; cbn [rbind] in Hv; [| discriminate].
  exact (reconciled_fixed lo hi best x (bounds_ordered_fle key lo hi Eb) Hv Hnz).
Qed.

Lemma write_back_stable (key : string) (x : PyVal) (st : St) :
  stable (sim_pars st) (epi_pars st) key x ->
  write_back key x st = (st, Ok tt).
Proof.
  unfold stable, write_back. destruct (dict_mem key (sim_pars st)); intros ->.
  - now rewrite mkSt_eta.
  - now rewrite mkSt_eta.
Qed.

(** A loop over items whose values are already written in the groups only
    fills [pars]. *)
Lemma for_items_stable (defaults : PyVal) (items : dict PyVal) (st : St) :
  (forall k entry, In (k, entry) items ->
     exists x, key_value defaults k entry = Ok x /\
               stable (sim_pars st) (epi_pars st) k x) ->
  for_items items (convert_key defaults) st =
    (mkSt (dict_update (pars st) (vals defaults items)) (sim_pars st) (epi_pars st), Ok tt).
Proof.
  revert st. induction items as [| [key entry] rest IH]; intros st H.
  - cbn. now rewrite mkSt_eta.
  - cbn [for_items]. unfold mbind. rewrite convert_key_stages.
    destruct (H key entry (or_introl eq_refl)) as [x [Hv Hs]].
    rewrite Hv.
    rewrite (write_back_stable key x (set_par key x st) Hs).
    rewrite IH.
    + cbn [vals map fst snd]. rewrite dict_update_cons. unfold val_of. cbn [fst snd].
      now rewrite Hv.
    + intros k en Hin. apply H. now right.
Qed.

Lemma vals_eq (defaults : PyVal) (l1 l2 : dict PyVal) :
  keys l2 = keys l1 ->
  (forall k en1 en2, In (k, en1) l1 -> In (k, en2) l2 ->
     key_value defaults k en2 = key_value defaults k en1) ->
  vals defaults l2 = vals defaults l1.
Proof.
  revert l2. induction l1 as [| [k1 e1] r1 IH]; intros [| [k2 e2] r2] Hk H;
    try discriminate; [reflexivity |].
  cbn [keys map fst] in Hk. inversion Hk. subst k2.
  cbn [vals map fst snd]. f_equal.
  - unfold val_of. cbn [fst snd].
    now rewrite (H k1 e1 e2 (or_introl eq_refl) (or_introl eq_refl)).
  - apply IH; [assumption |].
    intros k en1 en2 Hin1 Hin2. apply H; now right.
Qed.

Lemma keys_split {V : Type} (l2 pre : dict V) (x : string * V) (post : dict V) :
  keys l2 = keys (pre ++ x :: post)%list ->
  exists pre2 en2 post2,
    l2 = (pre2 ++ (fst x, en2) :: post2)%list /\ keys pre2 = keys pre.
Proof.
  unfold keys. revert l2. induction pre as [| [k v] r IH]; intros l2 H.
  - destruct l2 as [| [k2 v2] r2]; [discriminate |].
    cbn [app map fst] in H. inversion H. exists [], v2, r2. split; reflexivity.
  - destruct l2 as [| [k2 v2] r2]; [discriminate |].
    cbn [app map fst] in H. inversion H as [[Hk Hr]].
    destruct (IH r2 Hr) as [pre2 [en2 [post2 [Hl Hp]]]].
    exists ((k, v2) :: pre2), en2, post2. split.
    + cbn [app]. now rewrite Hl.
    + cbn [map fst]. now rewrite Hp.
Qed.

(** A loop that raises does so at one item, after a prefix that completed. *)
Lemma for_items_raise {V : Type} (items : dict V) (body : string -> V -> M unit)
    (st st' : St) (x : exn) :
  for_items items body st = (st', Raise x) ->
  exists pre k entry post st_a,
    items = (pre ++ (k, entry) :: post)%list /\
    for_items pre body st = (st_a, Ok tt) /\
    body k entry st_a = (st', Raise x).
Proof.
  revert st. induction items as [| [key entry] rest IH]; intros st H.
  - discriminate.
  - cbn [for_items] in H. unfold mbind in H.
    destruct (body key entry st) as [st1 r1] eqn:E1.
    destruct r1 as [[] | y].
    + destruct (IH st1 H) as [pre [k [en [post [st_a [Hi [Hp Hb]]]]]]].
      exists ((key, entry) :: pre), k, en, post, st_a. split; [| split].
      * cbn. now rewrite Hi.
      * cbn [for_items]. unfold mbind. now rewrite E1.
      * assumption.
    + inversion H. subst. exists [], key, entry, rest, st.
      split; [reflexivity |]. split; [reflexivity | assumption].
Qed.

Lemma key_value_not_verbose (entry x : PyVal) :
  key_value (VDict default_catalog) "verbose" entry <> Ok x.
Proof.
  rewrite key_value_catalog.
  replace (bounds "verbose") with (@None (float * float)) by (vm_compute; reflexivity).
  discriminate.
Qed.

Lemma in_keys_entry {V : Type} (k : string) (d : dict V) :
  In k (keys d) -> exists v, In (k, v) d.
Proof.
  unfold keys. intros H. apply in_map_iff in H as [[k' v] [Hk Hin]].
  cbn [fst] in Hk. subst k'. now exists v.
Qed.

Lemma in_entry_keys {V : Type} (k : string) (v : V) (d : dict V) :
  In (k, v) d -> In k (keys d).
Proof. intros H. change k with (fst (k, v)). now apply in_map. Qed.

(** Running the loop again over a completed prefix, on the groups that the
    first run left, reproduces the state of the first run. *)
Lemma rerun_prefix (s e : dict PyVal) (verbose : PyVal) (pre rest pre2 : dict PyVal)
    (st_a : St) :
  NoDup (keys s) -> NoDup (keys e) ->
  dict_merge s e = (pre ++ rest)%list ->
  for_items pre (convert_key (VDict default_catalog)) (start s e verbose) = (st_a, Ok tt) ->
  (forall k x, dict_get k (pars st_a) = Some x -> k <> "verbose" -> x <> zero) ->
  keys pre2 = keys pre ->
  (forall k en2, In (k, en2) pre2 ->
     dict_get k (dict_merge (sim_pars st_a) (epi_pars st_a)) = Some en2) ->
  for_items pre2 (convert_key (VDict default_catalog))
    (start (sim_pars st_a) (epi_pars st_a) verbose) = (st_a, Ok tt).
Proof.
  intros Hs He Hm Hrun Hnz Hk Hen2.
  set (cat := VDict default_catalog) in *.
  pose proof (nodup_dict_merge s e) as Hnd. rewrite Hm in Hnd.
  assert (Hndp : NoDup (keys pre)).
  { unfold keys in *. rewrite map_app in Hnd. now apply NoDup_app_remove_r in Hnd. }
  destruct (for_items_keys _ _ _ _ _ Hrun) as [Hks Hke].
  unfold start in Hks, Hke. cbn [sim_pars epi_pars] in Hks, Hke.
  assert (Hs1 : NoDup (keys (sim_pars st_a))) by now rewrite Hks.
  assert (He1 : NoDup (keys (epi_pars st_a))) by now rewrite Hke.
  assert (Hmerged : forall k en, In (k, en) pre ->
            match dict_get k e with Some v => Some v | None => dict_get k s end = Some en).
  { intros k en Hin. rewrite <- (dict_get_merge k s e Hs He), Hm.
    apply in_dict_get; [assumption |]. apply in_or_app. now left. }
  assert (Hkey : forall k en2, In (k, en2) pre2 ->
            exists x, key_value cat k en2 = Ok x /\
                      stable (sim_pars st_a) (epi_pars st_a) k x /\
                      forall en1, In (k, en1) pre -> key_value cat k en1 = Ok x).
  { intros k en2 Hin2.
    assert (Hkin : In k (keys pre)).
    { rewrite <- Hk. now apply in_entry_keys with en2. }
    destruct (in_keys_entry k pre Hkin) as [en1 Hin1].
    destruct (for_items_entry cat pre _ _ k en1 Hndp Hrun Hin1) as [x [Hv Hx]].
    destruct (for_items_done cat pre _ _ Hndp Hrun k en1 Hin1) as [x' [Hv' Hp]].
    assert (x' = x) by congruence. subst x'.
    assert (Hne : k <> "verbose").
    { intros ->. exact (key_value_not_verbose en1 x Hv). }
    pose proof (Hnz k x Hp Hne) as Hx0.
    pose proof (Hmerged k en1 Hin1) as Hm1.
    pose proof (Hen2 k en2 Hin2) as Hm2.
    rewrite (dict_get_merge k _ _ Hs1 He1) in Hm2.
    unfold start in Hx. cbn [sim_pars epi_pars] in Hx.
    exists x.
    assert (Huniq : forall en, In (k, en) pre -> key_value cat k en = Ok x).
    { intros en Hin.
      assert (en = en1).
      { pose proof (in_dict_get k en pre Hndp Hin) as A.
        pose proof (in_dict_get k en1 pre Hndp Hin1) as B. congruence. }
      now subst en. }
    destruct (dict_mem k s) eqn:Emem.
    - destruct Hx as [[d [Hd Hd']] Hepi].
      assert (Hst : stable (sim_pars st_a) (epi_pars st_a) k x).
      { unfold stable, dict_mem. rewrite Hd'.
        apply (set_best_stable k x _ _ Hd'). apply dict_get_set_eq. }
      rewrite Hepi in Hm2.
      destruct (dict_get k e) as [v |] eqn:Ee.
      + assert (en2 = en1) by congruence. subst en2. auto.
      + rewrite Hd' in Hm2. inversion Hm2. subst en2.
        split; [| auto]. apply (key_value_fixed k en1 _ x Hv Hx0).
        cbn [getitem]. unfold lookup. now rewrite dict_get_set_eq.
    - destruct Hx as [Hsim [d [Hd Hd']]].
      assert (Hst : stable (sim_pars st_a) (epi_pars st_a) k x).
      { unfold stable, dict_mem. rewrite Hsim.
        apply (set_best_stable k x _ _ Hd'). apply dict_get_set_eq. }
      rewrite Hd' in Hm2. inversion Hm2. subst en2.
      split; [| auto]. apply (key_value_fixed k en1 _ x Hv Hx0).
      cbn [getitem]. unfold lookup. now rewrite dict_get_set_eq. }
  rewrite for_items_stable.
  - unfold start. cbn [pars sim_pars epi_pars].
    rewrite (vals_eq cat pre pre2 Hk).
    + pose proof (for_items_ok_pars cat pre _ _ Hrun) as Hp.
      unfold start in Hp. cbn [pars] in Hp. rewrite <- Hp. now rewrite mkSt_eta.
    + intros k en1 en2 Hin1 Hin2.
      destruct (Hkey k en2 Hin2) as [x [Hv [_ Hu]]]. now rewrite Hv, (Hu en1 Hin1).
  - intros k en2 Hin2. unfold start. cbn [sim_pars epi_pars].
    destruct (Hkey k en2 Hin2) as [x [Hv [Hst _]]]. now exists x.
Qed.

(** C6 (as amended). Reconciling the groups that a reconciliation returned
    gives the same parameter values, the same groups and the same outcome
    again, provided that no reconciled value is zero. (A value reconciled to
    zero is falsy: the next pass makes it null.) *)
Theorem reconcile_idempotent (s e : dict PyVal) (verbose : PyVal) :
  NoDup (keys s) -> NoDup (keys e) ->
  (forall p k x, conv_pars (convert (VDict s) (VDict e) verbose) = Some p ->
     dict_get k p = Some x -> k <> "verbose" -> x <> zero) ->
  convert (conv_sim_pars (convert (VDict s) (VDict e) verbose))
          (conv_epi_pars (convert (VDict s) (VDict e) verbose)) verbose
    = convert (VDict s) (VDict e) verbose.
Proof.
  intros Hs He Hnz. rewrite (convert_groups s e) in *.
  set (cat := VDict default_catalog) in *.
  destruct (for_items (dict_merge s e) (convert_key cat) (start s e verbose))
    as [st1 r1] eqn:E1.
  cbn [conv_sim_pars conv_epi_pars conv_pars] in *.
  specialize (Hnz (pars st1)).
  rewrite convert_groups. fold cat.
  destruct (for_items_keys _ _ _ _ _ E1) as [Hks Hke].
  unfold start in Hks, Hke. cbn [sim_pars epi_pars] in Hks, Hke.
  pose proof (keys_dict_merge s e _ _ Hks Hke) as Hkm.
  pose proof (nodup_dict_merge (sim_pars st1) (epi_pars st1)) as Hnd2.
  assert (Hgoal : for_items (dict_merge (sim_pars st1) (epi_pars st1)) (convert_key cat)
                    (start (sim_pars st1) (epi_pars st1) verbose) = (st1, r1)).
  { destruct r1 as [[] | x].
    - apply (rerun_prefix s e verbose (dict_merge s e) [] _ st1 Hs He).
      + now rewrite app_nil_r.
      + exact E1.
      + intros k x Hx Hne. exact (Hnz k x eq_refl Hx Hne).
      + exact Hkm.
      + intros k en2 Hin. now apply in_dict_get.
    - destruct (for_items_raise _ _ _ _ _ E1)
        as [pre [k [entry [post [st_a [Hm [Hpre Hstep]]]]]]].
      pose proof (nodup_dict_merge s e) as Hnd. rewrite Hm in Hnd.
      assert (Hni : ~ In k (keys pre)).
      { intros Hin. unfold keys in Hnd. rewrite map_app in Hnd.
        apply (nodup_app_disjoint _ _ k Hnd Hin). cbn [map fst]. now left. }
      destruct (for_items_other _ _ _ _ _ k Hpre Hni) as [Hpk [Hsk Hek]].
      unfold start in Hpk, Hsk, Hek. cbn [pars sim_pars epi_pars] in Hpk, Hsk, Hek.
      (* the failing pass changes no group *)
      assert (Hst : sim_pars st1 = sim_pars st_a /\ epi_pars st1 = epi_pars st_a /\
                    forall k' x', k' <> k -> dict_get k' (pars st_a) = Some x' ->
                                  dict_get k' (pars st1) = Some x').
      { rewrite convert_key_stages in Hstep.
        destruct (key_value cat k entry) as [v |].
        - unfold write_back in Hstep.
          destruct (dict_mem k (sim_pars (set_par k v st_a))).
          + destruct (set_best k v (sim_pars (set_par k v st_a))); [discriminate |].
            inversion Hstep. subst st1. cbn [set_par pars sim_pars epi_pars].
            repeat split; auto. intros k' x' Hne Hx'. now rewrite dict_get_set_neq.
          + destruct (set_best k v (epi_pars (set_par k v st_a))); [discriminate |].
            inversion Hstep. subst st1. cbn [set_par pars sim_pars epi_pars].
            repeat split; auto. intros k' x' Hne Hx'. now rewrite dict_get_set_neq.
        - inversion Hstep. subst st1. auto. }
      destruct Hst as [Hsa [Hea Hpa]].
      rewrite Hm in Hkm. rewrite Hsa, Hea in *.
      destruct (keys_split _ _ _ _ Hkm) as [pre2 [en2 [post2 [Hm2 Hkp]]]].
      cbn [fst] in Hm2.
      assert (Hrun2 : for_items pre2 (convert_key cat)
                        (start (sim_pars st_a) (epi_pars st_a) verbose) = (st_a, Ok tt)).
      { apply (rerun_prefix s e verbose pre ((k, entry) :: post) pre2 st_a Hs He Hm Hpre).
        - intros k' x' Hx' Hne. apply (Hnz k' x' eq_refl); [| assumption].
          apply Hpa; [| assumption]. intros ->.
          rewrite Hpk in Hx'. cbn [dict_get] in Hx'.
          apply String.eqb_neq in Hne. rewrite Hne in Hx'. discriminate.
        - exact Hkp.
        - intros k' en' Hin. apply in_dict_get; [assumption |].
          rewrite Hm2. apply in_or_app. now left. }
      assert (Hen : en2 = entry).
      { assert (A : dict_get k (dict_merge (sim_pars st_a) (epi_pars st_a)) = Some en2).
        { apply in_dict_get; [assumption |]. rewrite Hm2. apply in_or_app. right. now left. }
        assert (B : dict_get k (dict_merge s e) = Some entry).
        { apply in_dict_get; [apply nodup_dict_merge |]. rewrite Hm.
          apply in_or_app. right. now left. }
        assert (Hs1 : NoDup (keys (sim_pars st_a))) by now rewrite Hks.
        assert (He1 : NoDup (keys (epi_pars st_a))) by now rewrite Hke.
        rewrite (dict_get_merge k _ _ Hs1 He1), Hsk, Hek in A.
        rewrite (dict_get_merge k _ _ Hs He) in B. congruence. }
      subst en2. rewrite Hm2, for_items_app, Hrun2.
      cbn [for_items]. unfold mbind. now rewrite Hstep. }
  now rewrite Hgoal.
Qed.

Lemma reconcile_idempotent_witness :
  convert (conv_sim_pars (convert (VDict clamp_request) (VDict contacts_request) VNone))
          (conv_epi_pars (convert (VDict clamp_request) (VDict contacts_request) VNone)) VNone
    = convert (VDict clamp_request) (VDict contacts_request) VNone.
Proof.
  apply (reconcile_idempotent clamp_request contacts_request VNone).
  - repeat constructor; cbn; intuition discriminate.
  - repeat constructor; cbn; intuition discriminate.
  - intros p k x Hp Hx Hne. vm_compute in Hp. inversion Hp. subst p. clear Hp.
    cbn [dict_get] in Hx.
    repeat match type of Hx with
           | (if ?c then _ else _) = _ => destruct c; [inversion Hx; discriminate |]
           end.
    discriminate.
Defined.

(** C6 (as stated) fails: an intervention day below zero is reconciled to
    zero, and reconciling the returned groups again turns it into null. *)
Lemma reconcile_not_idempotent_at_zero :
  conv_exn (convert (VDict negative_request) (VDict []) VNone) = None /\
  conv_pars (convert (VDict negative_request) (VDict []) VNone)
    = Some [("verbose", VNone); ("interv_days", zero); ("n", VFloat (of_Z 100))] /\
  conv_pars (convert (conv_sim_pars (convert (VDict negative_request) (VDict []) VNone))
                     (conv_epi_pars (convert (VDict negative_request) (VDict []) VNone))
                     VNone)
    = Some [("verbose", VNone); ("interv_days", VNone); ("n", VFloat (of_Z 100))] /\
  zero <> VNone.
Proof. vm_compute. repeat split; try reflexivity. discriminate. Qed.

(** ** Requests without a seed *)

Lemma in_keys_update {V : Type} (k : string) (d e : dict V) :
  In k (keys (dict_update d e)) -> In k (keys d) \/ In k (keys e).
Proof.
  revert d. induction e as [| [k0 v0] r IH]; intros d H; [now left |].
  rewrite dict_update_cons in H. destruct (IH _ H) as [H1 | H1].
  - rewrite keys_dict_set in H1. destruct (dict_mem k0 d); [now left |].
    apply in_app_or in H1 as [H1 | [<- | []]]; [now left |]. right. now left.
  - right. now right.
Qed.

(** A request whose groups hold no [seed] key makes [run_sim] raise, whatever
    the engine and whatever else the request holds. *)
Lemma run_sim_needs_seed (E : Engine) (s e : dict PyVal) (verbose : PyVal) :
  ~ In "seed" (keys s) -> ~ In "seed" (keys e) ->
  run_sim E (VDict s) (VDict e) verbose = Raise (KeyError "seed").
Proof.
  intros Hs He. rewrite run_sim_stages. cbv zeta. rewrite convert_groups.
  destruct (for_items _ _ _) as [st r] eqn:E1. cbn [conv_pars].
  assert (Hni : ~ In "seed" (keys (dict_merge s e))).
  { intros Hin. unfold dict_merge in Hin.
    apply in_keys_update in Hin as [Hin | Hin]; [| contradiction].
    apply in_keys_update in Hin as [[] | Hin]. contradiction. }
  destruct (for_items_other _ _ _ _ _ "seed" E1 Hni) as [Hp _].
  unfold seed_arg, lookup. rewrite Hp. reflexivity.
Qed.

(** * Further properties *)

(** ** Dictionaries, continued *)

Lemma dict_set_fresh {V : Type} (k : string) (v : V) (d : dict V) :
  ~ In k (keys d) -> dict_set k v d = (d ++ [(k, v)])%list.
Proof.
  induction d as [| [k' v'] r IH]; cbn [dict_set app keys map fst]; intros H.
  - reflexivity.
  - destruct (String.eqb k k') eqn:Ek.
    + apply String.eqb_eq in Ek. subst. exfalso. apply H. now left.
    + f_equal. apply IH. intros Hin. apply H. now right.
Qed.

(** Updating with fresh, distinct keys appends them in order. *)
Lemma dict_update_fresh {V : Type} (d e : dict V) :
  NoDup (keys d ++ keys e) -> dict_update d e = (d ++ e)%list.
Proof.
  revert d. induction e as [| [k v] r IH]; intros d H.
  - cbn. now rewrite app_nil_r.
  - rewrite dict_update_cons.
    assert (Hk : ~ In k (keys d)).
    { intros Hin. apply (nodup_app_disjoint _ _ k H Hin). now left. }
    rewrite (dict_set_fresh k v d Hk), IH.
    + now rewrite <- app_assoc.
    + unfold keys in *. rewrite map_app, <- app_assoc. exact H.
Qed.

Lemma dict_merge_disjoint {V : Type} (a b : dict V) :
  NoDup (keys a ++ keys b) -> dict_merge a b = (a ++ b)%list.
Proof.
  intros H. unfold dict_merge.
  assert (Ha : dict_update [] a = a).
  { apply (dict_update_fresh [] a). cbn [keys map app].
    now apply NoDup_app_remove_r in H. }
  rewrite Ha. now apply dict_update_fresh.
Qed.

Lemma in_keys_update_r {V : Type} (k : string) (d e : dict V) :
  In k (keys d) \/ In k (keys e) -> In k (keys (dict_update d e)).
Proof.
  revert d. induction e as [| [k0 v0] r IH]; intros d H.
  - destruct H as [H | []]. exact H.
  - rewrite dict_update_cons. apply IH.
    destruct H as [H | [H | H]].
    + left. rewrite keys_dict_set. destruct (dict_mem k0 d); [assumption |].
      apply in_or_app. now left.
    + cbn [fst] in H. subst k0. left. apply dict_mem_true. unfold dict_mem.
      now rewrite dict_get_set_eq.
    + now right.
Qed.

Lemma in_keys_merge {V : Type} (k : string) (a b : dict V) :
  In k (keys (dict_merge a b)) <-> In k (keys a) \/ In k (keys b).
Proof.
  unfold dict_merge. split.
  - intros H. apply in_keys_update in H as [H | H]; [| now right].
    apply in_keys_update in H as [[] | H]. now left.
  - intros [H | H]; apply in_keys_update_r; [left | now right].
    apply in_keys_update_r. now right.
Qed.

Lemma in_dict_set {V : Type} (k k0 : string) (v v0 : V) (d : dict V) :
  In (k, v) (dict_set k0 v0 d) -> (k, v) = (k0, v0) \/ In (k, v) d.
Proof.
  induction d as [| [k' v'] r IH]; cbn [dict_set].
  - intros [H | []]. left. now symmetry.
  - destruct (String.eqb k0 k') eqn:Ek.
    + apply String.eqb_eq in Ek. subst k'. intros [H | H].
      * left. now symmetry.
      * right. now right.
    + intros [H | H].
      * right. now left.
      * destruct (IH H) as [H1 | H1]; [now left | right; now right].
Qed.

Lemma in_dict_update {V : Type} (k : string) (v : V) (d e : dict V) :
  In (k, v) (dict_update d e) -> In (k, v) d \/ In (k, v) e.
Proof.
  revert d. induction e as [| [k0 v0] r IH]; intros d H; [now left |].
  rewrite dict_update_cons in H. destruct (IH _ H) as [H1 | H1].
  - apply in_dict_set in H1 as [H1 | H1]; [right; left; now symmetry | now left].
  - right. now right.
Qed.

Lemma in_dict_merge {V : Type} (k : string) (v : V) (a b : dict V) :
  In (k, v) (dict_merge a b) -> In (k, v) a \/ In (k, v) b.
Proof.
  unfold dict_merge. intros H. apply in_dict_update in H as [H | H]; [| now right].
  apply in_dict_update in H as [[] | H]. now left.
Qed.

(** ** The catalog, continued *)

Lemma apply_regions_step (r : string) (pk : string) (vd : dict PyVal)
    (rest : dict (dict PyVal)) (sp : dict PyVal) :
  apply_regions r ((pk, vd) :: rest) sp =
    do v <- lookup r vd; do sp' <- set_best pk v sp; apply_regions r rest sp'.
Proof.
  cbn [apply_regions]. unfold set_best.
  destruct (lookup r vd) as [v |]; cbn [rbind]; [| reflexivity].
  destruct (lookup pk sp) as [en |]; cbn [rbind]; [| reflexivity].
  destruct (setitem en "best" v); reflexivity.
Qed.

(** The region loop rewrites the [best] field of the keys of the region
    table, with the region's value, and nothing else. *)
Lemma apply_regions_spec (r : string) (items : dict (dict PyVal)) (sp0 sp : dict PyVal) :
  NoDup (keys items) ->
  apply_regions r items sp0 = Ok sp ->
  keys sp = keys sp0 /\
  forall k,
    match dict_get k items with
    | None => dict_get k sp = dict_get k sp0
    | Some vd => exists v, dict_get r vd = Some v /\
                           rewritten v (dict_get k sp0) (dict_get k sp)
    end.
Proof.
  revert sp0. induction items as [| [pk vd] rest IH]; intros sp0 Hnd H.
  - inversion H. subst. split; [reflexivity |]. intros k. reflexivity.
  - rewrite apply_regions_step in H. unfold lookup at 1 in H.
    destruct (dict_get r vd) as [v |] eqn:Ev; cbn [rbind] in H; [| discriminate].
    destruct (set_best pk v sp0) as [sp1 |] eqn:E1; cbn [rbind] in H; [| discriminate].
    inversion Hnd as [| ? ? Hni Hnd']. subst.
    destruct (IH sp1 Hnd' H) as [Hk Hall].
    split; [rewrite Hk; eapply set_best_keys; eauto |].
    intros k. cbn [dict_get]. destruct (String.eqb k pk) eqn:Ek.
    + apply String.eqb_eq in Ek. subst k.
      exists v. split; [assumption |].
      specialize (Hall pk). apply dict_get_none in Hni. rewrite Hni in Hall.
      rewrite Hall. now apply set_best_rewritten.
    + apply String.eqb_neq in Ek. specialize (Hall k).
      rewrite (set_best_get pk v sp0 sp1 k E1 Ek) in Hall. exact Hall.
Qed.

Lemma get_defaults_groups (region : option string) (sp ep : dict PyVal) :
  get_defaults region false = Ok (VDict [("sim_pars", VDict sp); ("epi_pars", VDict ep)]) ->
  apply_regions (match region with None => "Example" | Some r => r end)
    regions base_sim_pars = Ok sp /\ ep = epi_pars_defaults.
Proof.
  unfold get_defaults.
  destruct (apply_regions _ regions base_sim_pars) as [sp' |]; cbn [rbind]; [| discriminate].
  intros H. inversion H. auto.
Qed.

Lemma regions_nodup : NoDup (keys regions).
Proof. repeat constructor; cbn; intuition discriminate. Qed.

(** X1. The merged catalog is the structural group followed by the
    epidemiological group: the two groups share no key, so merging keeps
    every entry of both, in order. *)
Theorem merged_catalog_is_union (region : option string) (sp ep : dict PyVal) :
  get_defaults region false = Ok (VDict [("sim_pars", VDict sp); ("epi_pars", VDict ep)]) ->
  get_defaults region true = Ok (VDict (sp ++ ep)%list) /\
  NoDup (keys (sp ++ ep)%list).
Proof.
  intros H. destruct (get_defaults_groups region sp ep H) as [Ha He]. subst ep.
  destruct (apply_regions_spec _ _ _ _ regions_nodup Ha) as [Hk _].
  assert (Hnd : NoDup (keys sp ++ keys epi_pars_defaults)).
  { rewrite Hk. vm_compute. repeat constructor; cbn; intuition discriminate. }
  split.
  - unfold get_defaults. rewrite Ha. cbn [rbind].
    now rewrite (dict_merge_disjoint sp epi_pars_defaults Hnd).
  - unfold keys in *. now rewrite map_app.
Qed.

Lemma merged_catalog_is_union_witness :
  get_defaults (Some "Seattle") true
    = Ok (VDict (match get_defaults (Some "Seattle") false with
                 | Ok (VDict [(_, VDict sp); (_, VDict ep)]) => (sp ++ ep)%list
                 | _ => []
                 end)).
Proof.
  assert (H : get_defaults (Some "Seattle") false
              = Ok (VDict [("sim_pars",
                            VDict (match get_defaults (Some "Seattle") false with
                                   | Ok (VDict [(_, VDict sp); (_, VDict ep)]) => sp
                                   | _ => []
                                   end));
                           ("epi_pars", VDict epi_pars_defaults)]))
    by (vm_compute; reflexivity).
  destruct (merged_catalog_is_union (Some "Seattle") _ _ H) as [Hm _].
  rewrite Hm. vm_compute. reflexivity.
Defined.

(** X2. A region changes only the [best] field of the keys listed in the
    region table, to the region's value: the epidemiological group, the
    entries of the other structural keys (such as [seed]), the set and order
    of keys, and the bounds, names and tips of every entry are those of the
    catalog before the overrides. *)
Theorem region_overrides_best_only (region : option string) (sp ep : dict PyVal) :
  get_defaults region false = Ok (VDict [("sim_pars", VDict sp); ("epi_pars", VDict ep)]) ->
  ep = epi_pars_defaults /\
  keys sp = keys base_sim_pars /\
  forall k,
    match dict_get k regions with
    | None => dict_get k sp = dict_get k base_sim_pars
    | Some valuedict =>
        exists v d,
          dict_get (match region with None => "Example" | Some r => r end) valuedict = Some v /\
          dict_get k base_sim_pars = Some (VDict d) /\
          dict_get k sp = Some (VDict (dict_set "best" v d))
    end.
Proof.
  intros H. destruct (get_defaults_groups region sp ep H) as [Ha He].
  destruct (apply_regions_spec _ _ _ _ regions_nodup Ha) as [Hk Hall].
  split; [assumption |]. split; [assumption |].
  intros k. specialize (Hall k). destruct (dict_get k regions); [| assumption].
  destruct Hall as [v [Hv [d0 [Hd Hd']]]]. now exists v, d0.
Qed.

Lemma region_overrides_best_only_witness :
  dict_get "seed"
    (match get_defaults (Some "Seattle") false with
     | Ok (VDict [(_, VDict sp); (_, VDict ep)]) => sp
     | _ => []
     end) = dict_get "seed" base_sim_pars.
Proof.
  assert (H : get_defaults (Some "Seattle") false
              = Ok (VDict [("sim_pars",
                            VDict (match get_defaults (Some "Seattle") false with
                                   | Ok (VDict [(_, VDict sp); (_, VDict ep)]) => sp
                                   | _ => []
                                   end));
                           ("epi_pars", VDict epi_pars_defaults)]))
    by (vm_compute; reflexivity).
  destruct (region_overrides_best_only (Some "Seattle") _ _ H) as [_ [_ Hall]].
  exact (Hall "seed").
Defined.

(** ** The conversion, continued *)

Lemma fle_refl (a : float) : is_nan a = false -> fle a a = true.
Proof.
  destruct a as [| [] | x]; cbn; try discriminate; try reflexivity.
  intros _. apply Qc_leb_le. apply Qcle_refl.
Qed.

Lemma fle_linear (a b : float) :
  is_nan a = false -> is_nan b = false -> fle a b = false -> fle b a = true.
Proof.
  destruct a as [| [] | x], b as [| [] | y]; cbn; try discriminate; auto.
  intros _ _ H. apply Qc_leb_le.
  destruct (Qclt_le_dec y x) as [Hlt | Hle].
  - now apply Qclt_le_weak.
  - apply Qc_leb_le in Hle. congruence.
Qed.

(** The median of a number and two ordered bounds lies within the bounds;
    the median with not-a-number is not-a-number. *)
Lemma median3_in_range (v lo hi : float) :
  fle lo hi = true ->
  if is_nan v then median [v; lo; hi] = FNaN
  else fle lo (median [v; lo; hi]) && fle (median [v; lo; hi]) hi = true.
Proof.
  intros Hb. rewrite (median3_cases v lo hi Hb).
  destruct (fle_not_nan _ _ Hb) as [Hlo Hhi].
  destruct (is_nan v) eqn:Hv; [reflexivity |].
  destruct (fle v lo) eqn:H1.
  - now rewrite (fle_refl lo Hlo), Hb.
  - destruct (fle v hi) eqn:H2.
    + now rewrite (fle_linear v lo Hv Hlo H1).
    + now rewrite Hb, (fle_refl hi Hhi).
Qed.

(** Where a float in [pars] comes from. *)
Lemma pars_float_origin (s e : dict PyVal) (verbose : PyVal) (p : dict PyVal)
    (k : string) (f : float) :
  conv_pars (convert (VDict s) (VDict e) verbose) = Some p ->
  dict_get k p = Some (VFloat f) ->
  k <> "verbose" ->
  exists entry best v lo hi,
    dict_get k (dict_merge s e) = Some entry /\
    getitem entry "best" = Ok best /\
    truthy best = true /\
    py_float best = Ok v /\
    bounds k = Some (lo, hi) /\
    fle lo hi = true /\
    f = median [v; lo; hi].
Proof.
  intros Hp Hx Hne.
  destruct (conv_pars_value s e verbose p k _ Hp Hx Hne) as [entry [Hin Hv]].
  rewrite key_value_catalog in Hv.
  destruct (bounds k) as [[lo hi] |] eqn:Hb; [| discriminate].
  destruct (getitem entry "best") as [best |] eqn:Hbest; cbn [rbind] in Hv; [| discriminate].
  unfold reconciled in Hv. destruct (truthy best) eqn:Ht; [| discriminate].
  destruct (py_float best) as [v |] eqn:Hf; cbn [rbind] in Hv; [| discriminate].
  inversion Hv. exists entry, best, v, lo, hi.
  repeat (split; [assumption || reflexivity |]).
  split; [exact (bounds_ordered_fle k lo hi Hb) | reflexivity].
Qed.

Lemma for_items_verbose (items : dict PyVal) (st st' : St) (r : Res unit) :
  for_items items (convert_key (VDict default_catalog)) st = (st', r) ->
  dict_get "verbose" (pars st') = dict_get "verbose" (pars st).
Proof.
  revert st. induction items as [| [key entry] rest IH]; intros st H.
  - now inversion H.
  - cbn [for_items] in H. unfold mbind in H.
    destruct (convert_key (VDict default_catalog) key entry st) as [st1 r1] eqn:E1.
    assert (H1 : dict_get "verbose" (pars st1) = dict_get "verbose" (pars st)).
    { destruct (String.eqb "verbose" key) eqn:Ek.
      - apply String.eqb_eq in Ek. subst key. rewrite convert_key_stages in E1.
        destruct (key_value (VDict default_catalog) "verbose" entry) as [v |] eqn:Ev.
        + exfalso. exact (key_value_not_verbose entry v Ev).
        + now inversion E1.
      - apply String.eqb_neq in Ek.
        now destruct (convert_key_other _ _ _ _ _ _ "verbose" E1 Ek) as [Hp _]. }
    destruct r1 as [[] | x].
    + now rewrite (IH st1 H).
    + inversion H. now subst.
Qed.

(** X3. [pars] always carries the caller's [verbose] flag under the key
    [verbose]: no request can overwrite it, since [verbose] is not a catalog
    key. *)
Theorem verbose_is_kept (sp ep verbose : PyVal) :
  exists p, conv_pars (convert sp ep verbose) = Some p /\
            dict_get "verbose" p = Some verbose.
Proof.
  destruct sp as [| | | | | | s];
    try (eexists; split; [vm_compute; reflexivity | reflexivity]).
  destruct ep as [| | | | | | e];
    try (eexists; split; [unfold convert; rewrite get_defaults_merged; reflexivity
                         | reflexivity]).
  rewrite convert_groups.
  destruct (for_items _ _ _) as [st r] eqn:E. cbn [conv_pars].
  exists (pars st). split; [reflexivity |].
  rewrite (for_items_verbose _ _ _ _ E). unfold start. cbn [pars dict_get].
  now rewrite String.eqb_refl.
Qed.

(** X4. A request that names a key outside the catalog, in either group and
    at any position, never converts cleanly: the [try] block raises, [err]
    is not empty, and that key gets no value. *)
Theorem unknown_key_is_an_error (s e : dict PyVal) (verbose : PyVal) (k : string)
    (p : dict PyVal) :
  In k (keys s) \/ In k (keys e) ->
  bounds k = None ->
  conv_pars (convert (VDict s) (VDict e) verbose) = Some p ->
  conv_exn (convert (VDict s) (VDict e) verbose) <> None /\
  conv_err (convert (VDict s) (VDict e) verbose) <> "" /\
  (k <> "verbose" -> dict_get k p = None).
Proof.
  intros Hin Hb Hp.
  apply in_keys_merge in Hin. apply in_keys_entry in Hin as [entry Hin].
  pose proof (in_dict_get k entry _ (nodup_dict_merge s e) Hin) as Hget.
  assert (Hv : forall x, key_value (VDict default_catalog) k entry <> Ok x).
  { intros x. rewrite key_value_catalog, Hb. discriminate. }
  assert (Hexn : conv_exn (convert (VDict s) (VDict e) verbose) <> None).
  { intros Hnone.
    destruct (conv_done s e verbose p k entry Hnone Hp Hget) as [x [Hx _]].
    exact (Hv x Hx). }
  split; [assumption |]. split.
  - unfold conv_err.
    destruct (conv_exn (convert (VDict s) (VDict e) verbose)); [discriminate | congruence].
  - intros Hne. destruct (dict_get k p) as [x |] eqn:Hx; [| reflexivity].
    destruct (conv_pars_value s e verbose p k x Hp Hx Hne) as [entry' [Hin' Hv']].
    assert (entry' = entry) by congruence. subst. exfalso. exact (Hv x Hv').
Qed.

Lemma unknown_key_is_an_error_witness :
  conv_exn (convert (VDict unknown_middle_request) (VDict []) VNone) <> None /\
  conv_err (convert (VDict unknown_middle_request) (VDict []) VNone) <> "" /\
  ("bogus" <> "verbose" ->
   dict_get "bogus" [("verbose", VNone); ("n", VFloat (of_Z 10000))] = None).
Proof.
  apply (unknown_key_is_an_error unknown_middle_request [] VNone "bogus").
  - left. cbn. auto.
  - reflexivity.
  - vm_compute. reflexivity.
Defined.

(** X5. Every float that the conversion hands on for a parameter key lies
    within the catalog bounds of the key, unless the override itself
    converts to not-a-number, which passes through the median unchanged. *)
Theorem reconciled_value_in_bounds (s e : dict PyVal) (verbose : PyVal)
    (p : dict PyVal) (k : string) (f : float) :
  conv_pars (convert (VDict s) (VDict e) verbose) = Some p ->
  dict_get k p = Some (VFloat f) ->
  k <> "verbose" ->
  exists entry best v lo hi,
    dict_get k (dict_merge s e) = Some entry /\
    getitem entry "best" = Ok best /\
    py_float best = Ok v /\
    bounds k = Some (lo, hi) /\
    if is_nan v then f = FNaN else fle lo f && fle f hi = true.
Proof.
  intros Hp Hx Hne.
  destruct (pars_float_origin s e verbose p k f Hp Hx Hne)
    as [entry [best [v [lo [hi [H1 [H2 [_ [H4 [H5 [H6 H7]]]]]]]]]]].
  exists entry, best, v, lo, hi. repeat (split; [assumption |]).
  subst f. exact (median3_in_range v lo hi H6).
Qed.

Lemma reconciled_value_in_bounds_witness :
  exists entry best v lo hi,
    dict_get "n" (dict_merge clamp_request []) = Some entry /\
    getitem entry "best" = Ok best /\
    py_float best = Ok v /\
    bounds "n" = Some (lo, hi) /\
    if is_nan v then of_Z 10000 = FNaN
    else fle lo (of_Z 10000) && fle (of_Z 10000) hi = true.
Proof.
  apply (reconciled_value_in_bounds clamp_request [] (VBool true)
           [("verbose", VBool true); ("n", VFloat (of_Z 10000));
            ("n_days", VFloat (of_Z 10)); ("beta", VNone)] "n" (of_Z 10000)).
  - vm_compute. reflexivity.
  - reflexivity.
  - discriminate.
Defined.

Lemma convert_ok (s e : dict PyVal) (verbose : PyVal) :
  conv_exn (convert (VDict s) (VDict e) verbose) = None ->
  exists st,
    for_items (dict_merge s e) (convert_key (VDict default_catalog)) (start s e verbose)
      = (st, Ok tt) /\
    convert (VDict s) (VDict e) verbose
      = mkConv (Some (pars st)) (VDict (sim_pars st)) (VDict (epi_pars st)) None.
Proof.
  rewrite convert_groups.
  destruct (for_items _ _ _) as [st r] eqn:E. cbn [conv_exn].
  destruct r as [[] | x]; [| discriminate]. intros _. now exists st.
Qed.

(** X6. After a conversion without error the returned groups show what was
    used: they have the keys of the request in the same order, and for every
    key of the request the [best] field of its entry holds the value put in
    [pars], in the structural group when the key is there, else in the
    epidemiological group; the other fields of the entry are as sent. *)
Theorem groups_show_values_used (s e : dict PyVal) (verbose : PyVal) :
  conv_exn (convert (VDict s) (VDict e) verbose) = None ->
  exists p s' e',
    convert (VDict s) (VDict e) verbose = mkConv (Some p) (VDict s') (VDict e') None /\
    keys s' = keys s /\ keys e' = keys e /\
    forall k, In k (keys s) \/ In k (keys e) ->
      exists x d,
        dict_get k p = Some x /\
        if dict_mem k s then
          dict_get k s = Some (VDict d) /\
          dict_get k s' = Some (VDict (dict_set "best" x d)) /\
          dict_get k e' = dict_get k e
        else
          dict_get k e = Some (VDict d) /\
          dict_get k e' = Some (VDict (dict_set "best" x d)).
Proof.
  intros Hok. destruct (convert_ok s e verbose Hok) as [st [Hrun Hc]].
  exists (pars st), (sim_pars st), (epi_pars st). split; [assumption |].
  destruct (for_items_keys _ _ _ _ _ Hrun) as [Hks Hke].
  split; [assumption |]. split; [assumption |].
  intros k Hin. apply in_keys_merge in Hin. apply in_keys_entry in Hin as [entry Hin].
  pose proof (nodup_dict_merge s e) as Hnd.
  destruct (for_items_entry _ _ _ _ k entry Hnd Hrun Hin) as [x [Hv Hx]].
  destruct (for_items_done _ _ _ _ Hnd Hrun k entry Hin) as [x' [Hv' Hp]].
  assert (x' = x) by congruence. subst x'.
  unfold start in Hx. cbn [sim_pars epi_pars] in Hx.
  destruct (dict_mem k s).
  - destruct Hx as [[d [Hd Hd']] He]. exists x, d. auto.
  - destruct Hx as [_ [d [Hd Hd']]]. exists x, d. auto.
Qed.

Lemma groups_show_values_used_witness :
  exists p s' e',
    convert (VDict clamp_request) (VDict contacts_request) VNone
      = mkConv (Some p) (VDict s') (VDict e') None /\
    keys s' = keys clamp_request /\ keys e' = keys contacts_request.
Proof.
  assert (Hok : conv_exn (convert (VDict clamp_request) (VDict contacts_request) VNone)
                = None) by (vm_compute; reflexivity).
  destruct (groups_show_values_used clamp_request contacts_request VNone Hok)
    as [p [s' [e' [Hc [Hs [He _]]]]]].
  exists p, s', e'. auto.
Defined.

(** X7. A key sent in both groups is reconciled once, from the entry of the
    epidemiological group, and written back into the entry of the structural
    group only: the epidemiological entry keeps the value the caller sent. *)
Theorem key_in_both_groups (s e : dict PyVal) (verbose : PyVal) (k : string)
    (es ee : PyVal) :
  NoDup (keys s) -> NoDup (keys e) ->
  conv_exn (convert (VDict s) (VDict e) verbose) = None ->
  dict_get k s = Some es ->
  dict_get k e = Some ee ->
  exists p s' e' x best lo hi d,
    convert (VDict s) (VDict e) verbose = mkConv (Some p) (VDict s') (VDict e') None /\
    getitem ee "best" = Ok best /\
    bounds k = Some (lo, hi) /\
    reconciled lo hi best = Ok x /\
    dict_get k p = Some x /\
    es = VDict d /\
    dict_get k s' = Some (VDict (dict_set "best" x d)) /\
    dict_get k e' = Some ee.
Proof.
  intros Hs He Hok Hes Hee. destruct (convert_ok s e verbose Hok) as [st [Hrun Hc]].
  pose proof (nodup_dict_merge s e) as Hnd.
  assert (Hm : dict_get k (dict_merge s e) = Some ee).
  { now rewrite (dict_get_merge k s e Hs He), Hee. }
  apply dict_get_in in Hm.
  destruct (for_items_entry _ _ _ _ k ee Hnd Hrun Hm) as [x [Hv Hx]].
  destruct (for_items_done _ _ _ _ Hnd Hrun k ee Hm) as [x' [Hv' Hp]].
  assert (x' = x) by congruence. subst x'.
  unfold start in Hx. cbn [sim_pars epi_pars] in Hx.
  unfold dict_mem in Hx. rewrite Hes in Hx. destruct Hx as [[d [Hd Hd']] Hepi].
  rewrite key_value_catalog in Hv.
  destruct (bounds k) as [[lo hi] |]; [| discriminate].
  destruct (getitem ee "best") as [best |]; cbn [rbind] in Hv; [| discriminate].
  exists (pars st), (sim_pars st), (epi_pars st), x, best, lo, hi, d.
  repeat (split; [assumption || reflexivity |]).
  split; [congruence |]. split; [assumption | congruence].
Qed.

Lemma key_in_both_groups_witness :
  exists p s' e' x best lo hi d,
    convert (VDict clamp_request) (VDict contacts_request) VNone
      = mkConv (Some p) (VDict s') (VDict e') None /\
    getitem (override (VInt 400)) "best" = Ok best /\
    bounds "n_days" = Some (lo, hi) /\
    reconciled lo hi best = Ok x /\
    dict_get "n_days" p = Some x /\
    override (VStr "10") = VDict d /\
    dict_get "n_days" s' = Some (VDict (dict_set "best" x d)) /\
    dict_get "n_days" e' = Some (override (VInt 400)).
Proof.
  apply (key_in_both_groups clamp_request contacts_request VNone "n_days").
  - repeat constructor; cbn; intuition discriminate.
  - repeat constructor; cbn; intuition discriminate.
  - vm_compute. reflexivity.
  - reflexivity.
  - reflexivity.
Defined.

(** X8. After a conversion without error [pars] holds the verbosity flag
    first and then exactly one value per key of the request, in the order of
    the merged groups. *)
Theorem pars_keys_follow_request (s e : dict PyVal) (verbose : PyVal) (p : dict PyVal) :
  conv_exn (convert (VDict s) (VDict e) verbose) = None ->
  conv_pars (convert (VDict s) (VDict e) verbose) = Some p ->
  keys p = "verbose" :: keys (dict_merge s e).
Proof.
  intros Hok Hp. destruct (convert_ok s e verbose Hok) as [st [Hrun Hc]].
  rewrite Hc in Hp. cbn [conv_pars] in Hp. inversion Hp. subst p. clear Hp.
  rewrite (for_items_ok_pars _ _ _ _ Hrun). unfold start. cbn [pars].
  set (cat := VDict default_catalog) in *.
  assert (Hk : keys (vals cat (dict_merge s e)) = keys (dict_merge s e)).
  { unfold vals, keys. rewrite map_map. now apply map_ext. }
  pose proof (nodup_dict_merge s e) as Hnd.
  rewrite dict_update_fresh.
  - unfold keys in *. rewrite map_app. cbn [map fst app]. now rewrite Hk.
  - rewrite Hk. cbn [keys map fst app]. constructor; [| assumption].
    intros Hin. apply in_keys_entry in Hin as [entry Hin].
    destruct (for_items_done _ _ _ _ Hnd Hrun "verbose" entry Hin) as [x [Hv _]].
    exact (key_value_not_verbose entry x Hv).
Qed.

Lemma pars_keys_follow_request_witness :
  keys [("verbose", VNone); ("n", VFloat (of_Z 10000)); ("n_days", VFloat (of_Z 90));
        ("beta", VNone); ("contacts", VFloat (of_Z 50))]
    = "verbose" :: keys (dict_merge clamp_request contacts_request).
Proof.
  apply (pars_keys_follow_request clamp_request contacts_request VNone).
  - vm_compute. reflexivity.
  - vm_compute. reflexivity.
Defined.

Lemma usable_entry_dict (en : PyVal) :
  usable_entry en = true ->
  exists d b, en = VDict d /\ dict_get "best" d = Some b /\
    (truthy b = false \/ exists f, py_float b = Ok f /\ is_nan f = false).
Proof.
  destruct en as [| | | | | | d]; cbn [usable_entry]; try discriminate.
  destruct (dict_get "best" d) as [b |] eqn:Hd; [| discriminate].
  intros H. exists d, b. split; [reflexivity |]. split; [exact Hd |].
  apply orb_true_iff in H as [H | H].
  - left. now apply negb_true_iff.
  - right. destruct (py_float b) as [f |]; [| discriminate].
    exists f. split; [reflexivity |]. now apply negb_true_iff.
Qed.

Lemma usable_key_value (k : string) (en : PyVal) :
  bounds k <> None -> usable_entry en = true ->
  exists v, key_value (VDict default_catalog) k en = Ok v.
Proof.
  intros Hb Hu. rewrite key_value_catalog.
  destruct (bounds k) as [[lo hi] |]; [| congruence].
  destruct (usable_entry_dict en Hu) as [d [b [-> [Hd Hc]]]].
  cbn [getitem]. unfold lookup. rewrite Hd. cbn [rbind]. unfold reconciled.
  destruct Hc as [Ht | [f [Hf _]]].
  - rewrite Ht. now exists VNone.
  - destruct (truthy b); [| now exists VNone].
    rewrite Hf. cbn [rbind]. eexists. reflexivity.
Qed.

Lemma set_best_dict (k : string) (v : PyVal) (g d : dict PyVal) :
  dict_get k g = Some (VDict d) -> exists g', set_best k v g = Ok g'.
Proof.
  intros H. unfold set_best, lookup. rewrite H. cbn [rbind setitem].
  eexists. reflexivity.
Qed.

(** The loop gets through a request whose keys and entries are all usable. *)
Lemma usable_converts (s e : dict PyVal) (verbose : PyVal) :
  (forall k en, In (k, en) s \/ In (k, en) e ->
     bounds k <> None /\ usable_entry en = true) ->
  conv_exn (convert (VDict s) (VDict e) verbose) = None.
Proof.
  intros Hall. rewrite convert_groups.
  set (cat := VDict default_catalog).
  destruct (for_items (dict_merge s e) (convert_key cat) (start s e verbose))
    as [st r] eqn:E.
  cbn [conv_exn]. destruct r as [[] | x]; [reflexivity |]. exfalso.
  destruct (for_items_raise _ _ _ _ _ E) as [pre [k [entry [post [st_a [Hm [Hpre Hstep]]]]]]].
  pose proof (nodup_dict_merge s e) as Hnd. rewrite Hm in Hnd.
  assert (Hin : In (k, entry) (dict_merge s e)).
  { rewrite Hm. apply in_or_app. right. now left. }
  assert (Hni : ~ In k (keys pre)).
  { intros Hk. unfold keys in Hnd. rewrite map_app in Hnd.
    apply (nodup_app_disjoint _ _ k Hnd Hk). cbn [map fst]. now left. }
  destruct (for_items_other _ _ _ _ _ k Hpre Hni) as [_ [Hsk Hek]].
  unfold start in Hsk, Hek. cbn [sim_pars epi_pars] in Hsk, Hek.
  destruct (Hall k entry (in_dict_merge k entry s e Hin)) as [Hb Hu].
  destruct (usable_key_value k entry Hb Hu) as [v Hv]. fold cat in Hv.
  rewrite convert_key_stages, Hv in Hstep.
  unfold write_back, set_par in Hstep. cbn [pars sim_pars epi_pars] in Hstep.
  unfold dict_mem in Hstep. rewrite Hsk in Hstep.
  destruct (dict_get k s) as [es |] eqn:Es.
  - destruct (Hall k es (or_introl (dict_get_in k es s Es))) as [_ Hus].
    destruct (usable_entry_dict es Hus) as [d [b [-> _]]].
    assert (Es' : dict_get k (sim_pars st_a) = Some (VDict d)) by congruence.
    destruct (set_best_dict k v _ d Es') as [g' Hg]. rewrite Hg in Hstep. discriminate.
  - assert (Hke : In k (keys e)).
    { assert (Hk : In k (keys (dict_merge s e))) by (now apply in_entry_keys with entry).
      apply in_keys_merge in Hk as [Hk | Hk]; [| assumption].
      apply dict_get_none in Es. contradiction. }
    apply in_keys_entry in Hke as [ee Hee].
    destruct (Hall k ee (or_intror Hee)) as [_ Hue].
    destruct (usable_entry_dict ee Hue) as [d [b [-> _]]].
    assert (Ee : exists d', dict_get k e = Some d').
    { destruct (dict_get k e) as [d' |] eqn:Ed; [now exists d' |].
      apply dict_get_none in Ed. exfalso. apply Ed. now apply in_entry_keys with (VDict d). }
    destruct Ee as [ee' Ee].
    destruct (Hall k ee' (or_intror (dict_get_in k ee' e Ee))) as [_ Hue'].
    destruct (usable_entry_dict ee' Hue') as [d' [b' [-> _]]].
    assert (Ee' : dict_get k (epi_pars st_a) = Some (VDict d')) by congruence.
    destruct (set_best_dict k v _ d' Ee') as [g' Hg]. rewrite Hg in Hstep. discriminate.
Qed.

(** X9. A request in which every key is a catalog key and every entry is a
    mapping whose [best] is falsy or converts to a number is converted
    without error, and every key of the request gets a value. *)
Theorem usable_request_converts (s e : dict PyVal) (verbose : PyVal) :
  (forall k en, In (k, en) s \/ In (k, en) e ->
     bounds k <> None /\ usable_entry en = true) ->
  conv_exn (convert (VDict s) (VDict e) verbose) = None /\
  conv_err (convert (VDict s) (VDict e) verbose) = "" /\
  exists p, conv_pars (convert (VDict s) (VDict e) verbose) = Some p /\
            forall k, In k (keys s) \/ In k (keys e) -> dict_mem k p = true.
Proof.
  intros Hall. pose proof (usable_converts s e verbose Hall) as Hok.
  split; [assumption |]. split; [unfold conv_err; now rewrite Hok |].
  destruct (convert_ok s e verbose Hok) as [st [Hrun Hc]].
  exists (pars st). split; [now rewrite Hc |].
  intros k Hin. apply in_keys_merge in Hin. apply in_keys_entry in Hin as [entry Hin].
  destruct (for_items_done _ _ _ _ (nodup_dict_merge s e) Hrun k entry Hin) as [x [_ Hx]].
  unfold dict_mem. now rewrite Hx.
Qed.

Lemma usable_request_converts_witness :
  conv_exn (convert (VDict clamp_request) (VDict contacts_request) VNone) = None.
Proof.
  apply (usable_request_converts clamp_request contacts_request VNone).
  intros k en [H | H]; cbn in H;
    repeat (destruct H as [H | H]; [inversion H; subst; split;
                                    [vm_compute; discriminate | reflexivity] |]);
    destruct H.
Defined.

(** ** Seeding and the error text *)

Lemma trunc_range (q : Qc) :
  fle (of_Z 1) (FFin q) = true -> fle (FFin q) (of_Z 100) = true -> 1 <= trunc q <= 100.
Proof.
  unfold of_Z. cbn [fle]. intros H1 H2.
  apply Qle_bool_iff in H1. apply Qle_bool_iff in H2.
  unfold Qle in H1, H2. cbn in H1, H2. unfold trunc.
  destruct q as [[n d] Hc]. cbn [this Qnum Qden] in *.
  assert (Hn : 0 <= n) by lia.
  rewrite Z.quot_div_nonneg by lia. split.
  - apply Z.div_le_lower_bound; lia.
  - apply Z.div_le_upper_bound; lia.
Qed.

Lemma seed_bounds : bounds "seed" = Some (of_Z 1, of_Z 100).
Proof. vm_compute. reflexivity. Qed.

(** The outcomes of the seeding step, by the value of [pars['seed']]. *)
Lemma seed_arg_cases (s e : dict PyVal) (verbose : PyVal) (p : dict PyVal) :
  conv_pars (convert (VDict s) (VDict e) verbose) = Some p ->
  match seed_arg p with
  | Ok (Some z) => 1 <= z <= 100 /\ exists q, dict_get "seed" p = Some (VFloat (FFin q))
  | Ok None => dict_get "seed" p = Some VNone
  | Raise x =>
      (x = KeyError "seed" /\ dict_get "seed" p = None) \/
      (x = ValueError "cannot convert float NaN to integer" /\
       dict_get "seed" p = Some (VFloat FNaN))
  end.
Proof.
  intros Hp. unfold seed_arg, lookup.
  destruct (dict_get "seed" p) as [x |] eqn:Hx; cbn [rbind]; [| now left].
  assert (Hne : "seed" <> "verbose") by discriminate.
  destruct (conv_pars_value s e verbose p "seed" x Hp Hx Hne) as [entry [_ Hv]].
  destruct (key_value_float_or_none _ _ _ _ Hv) as [-> | [f ->]]; [reflexivity |].
  destruct (pars_float_origin s e verbose p "seed" f Hp Hx Hne)
    as [en [best [v [lo [hi [_ [_ [_ [_ [Hb [Hle Hf]]]]]]]]]]].
  rewrite seed_bounds in Hb. inversion Hb. subst lo hi.
  pose proof (median3_in_range v _ _ Hle) as Hr. rewrite <- Hf in Hr. clear Hf.
  destruct (is_nan v).
  - subst f. cbn [py_int rbind]. right. auto.
  - apply andb_true_iff in Hr as [H1 H2].
    destruct f as [| b | q]; try discriminate.
    + destruct b; discriminate.
    + cbn [py_int rbind]. split; [now apply trunc_range | now exists q].
Qed.

(** X10. The seed handed to the engine is always an integer from 1 to 100:
    a seed override is clamped to the catalog bounds before it is truncated.
    A null seed asks for a random seed; the step fails only when [pars] has
    no seed, or when the override converts to not-a-number. *)
Theorem seed_is_clamped (s e : dict PyVal) (verbose : PyVal) (p : dict PyVal) :
  conv_pars (convert (VDict s) (VDict e) verbose) = Some p ->
  match seed_arg p with
  | Ok (Some z) => 1 <= z <= 100
  | Ok None => dict_get "seed" p = Some VNone
  | Raise x =>
      (x = KeyError "seed" /\ dict_get "seed" p = None) \/
      (x = ValueError "cannot convert float NaN to integer" /\
       dict_get "seed" p = Some (VFloat FNaN))
  end.
Proof.
  intros Hp. pose proof (seed_arg_cases s e verbose p Hp) as H.
  destruct (seed_arg p) as [[z |] | x]; [now destruct H | assumption | assumption].
Qed.

Lemma seed_is_clamped_witness :
  match seed_arg [("verbose", VNone); ("seed", VFloat (of_Z 100))] with
  | Ok (Some z) => 1 <= z <= 100
  | Ok None =>
      dict_get "seed" [("verbose", VNone); ("seed", VFloat (of_Z 100))] = Some VNone
  | Raise x =>
      (x = KeyError "seed" /\
       dict_get "seed" [("verbose", VNone); ("seed", VFloat (of_Z 100))] = None) \/
      (x = ValueError "cannot convert float NaN to integer" /\
       dict_get "seed" [("verbose", VNone); ("seed", VFloat (of_Z 100))]
         = Some (VFloat FNaN))
  end.
Proof.
  apply (seed_is_clamped [("seed", override (VStr "1e9"))] [] VNone).
  vm_compute. reflexivity.
Defined.

Lemma append_empty (a b : string) : a ++ b = "" <-> a = "" /\ b = "".
Proof.
  split.
  - destruct a; cbn; [auto | discriminate].
  - intros [-> ->]. reflexivity.
Qed.

Lemma conv_err_empty (c : Conv) : conv_err c = "" <-> conv_exn c = None.
Proof.
  unfold conv_err. destruct (conv_exn c).
  - split; [cbn; discriminate | discriminate].
  - split; reflexivity.
Qed.

Lemma run_err_empty (err : string) (failure : option exn) :
  run_err err failure = "" <-> err = "" /\ failure = None.
Proof.
  unfold run_err. destruct failure as [x |].
  - rewrite append_empty. split.
    + intros [_ H]. cbn in H. discriminate.
    + intros [_ H]. discriminate.
  - split; [auto | now intros [H _]].
Qed.

Section RunSimMore.
Variable E : Engine.

(** X11. In a result that [run_sim] returns, [err] is the conversion
    message followed by the engine message; it is empty exactly when the
    conversion ended without an exception and the engine run did not raise. *)
Theorem err_empty_iff_success (sp ep verbose : PyVal) (r : RunResult) :
  run_sim E sp ep verbose = Ok r ->
  exists pars seed,
    conv_pars (convert sp ep verbose) = Some pars /\
    seed_arg pars = Ok seed /\
    out_err r = run_err (conv_err (convert sp ep verbose))
                  (snd (run E (configured E pars seed))) /\
    out_sim_pars r = conv_sim_pars (convert sp ep verbose) /\
    out_epi_pars r = conv_epi_pars (convert sp ep verbose) /\
    (out_err r = "" <->
     conv_exn (convert sp ep verbose) = None /\
     snd (run E (configured E pars seed)) = None).
Proof.
  rewrite run_sim_stages. cbv zeta.
  destruct (conv_pars (convert sp ep verbose)) as [pars |] eqn:Hp; [| discriminate].
  destruct (seed_arg pars) as [seed |] eqn:Hs; [| discriminate]. cbn [rbind].
  destruct (plot_all E _ 0 (to_plot E) []) as [graphs |]; [| discriminate]. cbn [rbind].
  destruct (make_summary E _) as [summary |]; [| discriminate]. cbn [rbind].
  intros H. inversion H. subst r. clear H. cbn [out_err out_sim_pars out_epi_pars].
  exists pars, seed.
  split; [reflexivity |]. split; [exact Hs |]. split; [reflexivity |].
  split; [reflexivity |]. split; [reflexivity |].
  rewrite run_err_empty, conv_err_empty. tauto.
Qed.

(** X12. [run_sim] raises [KeyError] for [seed], whatever the engine, when a
    group is not a mapping, and when neither group has a [seed] key: in both
    cases [pars] is left without a seed, and it is read unguarded. *)
Theorem run_sim_raises_without_seed (sp ep verbose : PyVal) :
  (is_mapping sp && is_mapping ep = false \/
   exists s e, sp = VDict s /\ ep = VDict e /\
               ~ In "seed" (keys s) /\ ~ In "seed" (keys e)) ->
  run_sim E sp ep verbose = Raise (KeyError "seed").
Proof.
  intros [H | [s [e [-> [-> [Hs He]]]]]].
  - rewrite run_sim_stages. cbv zeta.
    assert (Hp : conv_pars (convert sp ep verbose) = Some [("verbose", verbose)]).
    { unfold convert. rewrite get_defaults_merged.
      destruct sp as [| | | | | | s]; try reflexivity.
      destruct ep as [| | | | | | e]; try reflexivity. discriminate. }
    rewrite Hp. reflexivity.
  - now apply run_sim_needs_seed.
Qed.

End RunSimMore.

Lemma err_empty_iff_success_witness :
  out_err full_result = "" <->
  conv_exn (convert full_sim_pars full_epi_pars (VBool true)) = None /\
  snd (run working_engine (configured working_engine full_pars (Some 1))) = None.
Proof.
  assert (Hr : run_sim working_engine full_sim_pars full_epi_pars (VBool true)
               = Ok full_result) by (vm_compute; reflexivity).
  destruct (err_empty_iff_success working_engine full_sim_pars full_epi_pars (VBool true)
              full_result Hr) as [pars [seed [Hp [Hs [_ [_ [_ Hiff]]]]]]].
  assert (Hp' : conv_pars (convert full_sim_pars full_epi_pars (VBool true))
                = Some full_pars) by (vm_compute; reflexivity).
  assert (pars = full_pars) by congruence. subst pars.
  assert (Hs' : seed_arg full_pars = Ok (Some 1)) by (vm_compute; reflexivity).
  assert (seed = Some 1) by congruence. subst seed.
  exact Hiff.
Defined.

Lemma run_sim_raises_without_seed_witness :
  run_sim working_engine (VInt 5) (VDict []) VNone = Raise (KeyError "seed").
Proof.
  apply (run_sim_raises_without_seed working_engine (VInt 5) (VDict []) VNone).
  left. reflexivity.
Defined.

(** ** The figures *)

Section Figures.
Variable E : Engine.
Variable sim : Sim E.

Lemma add_traces_ok (colors : list (Qc * Qc * Qc)) (t : list float)
    (keylabels : dict string) (i : nat) (fig : list Trace) :
  dict_get "t" (results E sim) = Some t ->
  (forall key, In key (keys keylabels) -> dict_mem key (results E sim) = true) ->
  (i + List.length keylabels <= List.length colors)%nat ->
  add_traces E sim colors i keylabels fig
    = Ok (fig ++ traces_from E sim colors t i keylabels)%list.
Proof.
  intros Ht. revert i fig.
  induction keylabels as [| [key label] rest IH]; intros i fig Hk Hc.
  - cbn. now rewrite app_nil_r.
  - cbn [add_traces traces_from List.length] in *.
    destruct (nth_error colors i) as [c |] eqn:Ec.
    + cbn [rbind]. unfold lookup.
      assert (Hm : dict_mem key (results E sim) = true) by (apply Hk; now left).
      unfold dict_mem in Hm.
      destruct (dict_get key (results E sim)) as [y |] eqn:Ey; [| discriminate].
      rewrite Ht. cbn [rbind]. rewrite IH.
      * rewrite <- app_assoc. cbn [app]. unfold trace_of. cbn [fst snd].
        rewrite Ey. now rewrite (nth_error_nth colors i _ Ec).
      * intros k Hin. apply Hk. now right.
      * lia.
    + apply nth_error_None in Ec. lia.
Qed.

Lemma plot_all_ok (t : list float) (groups : dict (dict string)) (p : nat)
    (graphs : list GraphPayload) :
  (forall n, List.length (gridcolors E n) = n) ->
  dict_get "t" (results E sim) = Some t ->
  (forall key, In key (flat_map (fun g => keys (snd g)) groups) ->
     dict_mem key (results E sim) = true) ->
  plot_all E sim p groups graphs = Ok (graphs ++ graphs_from E sim t p groups)%list.
Proof.
  intros Hc Ht. revert p graphs.
  induction groups as [| [title keylabels] rest IH]; intros p graphs Hk.
  - cbn. now rewrite app_nil_r.
  - cbn [plot_all graphs_from].
    rewrite (add_traces_ok _ t keylabels 0 [] Ht).
    + cbn [rbind app]. rewrite IH.
      * now rewrite <- app_assoc.
      * intros k Hin. apply Hk. cbn [flat_map snd]. apply in_or_app. now right.
    + intros k Hin. apply Hk. cbn [flat_map snd]. apply in_or_app. now left.
    + rewrite Hc. lia.
Qed.

Lemma graphs_from_length (t : list float) (groups : dict (dict string)) (p : nat) :
  List.length (graphs_from E sim t p groups) = List.length groups.
Proof.
  revert p. induction groups as [| g rest IH]; intros p; cbn; [reflexivity |].
  now rewrite IH.
Qed.

Lemma graphs_from_ids (t : list float) (groups : dict (dict string)) (p : nat) :
  map graph_id (graphs_from E sim t p groups)
    = map (uuid E) (seq p (List.length groups)).
Proof.
  revert p. induction groups as [| g rest IH]; intros p; cbn; [reflexivity |].
  now rewrite IH.
Qed.

(** X13. When the palette has a colour for every line, and the results hold
    the day index and every plotted series, the figures are built without
    error: one payload per metric group, in the order of [to_plot], the
    payload of the [p]-th group carrying the [p]-th identifier and a figure
    with one line per series of the group, each over the day index. *)
Theorem plot_all_builds_every_group (t : list float) :
  (forall n, List.length (gridcolors E n) = n) ->
  dict_get "t" (results E sim) = Some t ->
  (forall key, In key (plotted_keys E) -> dict_mem key (results E sim) = true) ->
  plot_all E sim 0 (to_plot E) [] = Ok (graphs_from E sim t 0 (to_plot E)) /\
  List.length (graphs_from E sim t 0 (to_plot E)) = List.length (to_plot E) /\
  map graph_id (graphs_from E sim t 0 (to_plot E))
    = map (uuid E) (seq 0 (List.length (to_plot E))).
Proof.
  intros Hc Ht Hk. split; [| split].
  - exact (plot_all_ok t (to_plot E) 0 [] Hc Ht Hk).
  - apply graphs_from_length.
  - apply graphs_from_ids.
Qed.

Lemma add_traces_raise (colors : list (Qc * Qc * Qc)) (keylabels : dict string)
    (i : nat) (fig : list Trace) (x : exn) :
  (i + List.length keylabels <= List.length colors)%nat ->
  add_traces E sim colors i keylabels fig = Raise x ->
  exists k, x = KeyError k /\ dict_get k (results E sim) = None /\
            (k = "t" \/ In k (keys keylabels)).
Proof.
  revert i fig. induction keylabels as [| [key label] rest IH]; intros i fig Hc H.
  - discriminate.
  - cbn [add_traces List.length] in *.
    destruct (nth_error colors i) as [c |] eqn:Ec.
    + cbn [rbind] in H. unfold lookup in H.
      destruct (dict_get key (results E sim)) as [y |] eqn:Ey; cbn [rbind] in H.
      * destruct (dict_get "t" (results E sim)) as [t |] eqn:Et; cbn [rbind] in H.
        -- assert (Hc' : (S i + List.length rest <= List.length colors)%nat) by lia.
           destruct (IH _ _ Hc' H) as [k [Hx [Hn Hin]]].
           exists k. split; [assumption |]. split; [assumption |].
           destruct Hin as [-> | Hin]; [now left | right; now right].
        -- inversion H. exists "t". auto.
      * inversion H. exists key. split; [reflexivity |]. split; [assumption |].
        right. now left.
    + apply nth_error_None in Ec. lia.
Qed.

(** X14. With a palette that has a colour for every line, building the
    figures can fail in one way only: with [KeyError] for a series, the day
    index or a plotted one, that the results do not hold. *)
Theorem plot_all_fails_on_missing_series (groups : dict (dict string)) (p : nat)
    (graphs : list GraphPayload) (x : exn) :
  (forall n, List.length (gridcolors E n) = n) ->
  plot_all E sim p groups graphs = Raise x ->
  exists k, x = KeyError k /\ dict_get k (results E sim) = None /\
            (k = "t" \/ In k (flat_map (fun g => keys (snd g)) groups)).
Proof.
  intros Hc. revert p graphs.
  induction groups as [| [title keylabels] rest IH]; intros p graphs H.
  - discriminate.
  - cbn [plot_all] in H.
    destruct (add_traces E sim (gridcolors E (List.length keylabels)) 0 keylabels [])
      as [traces |] eqn:Ea; cbn [rbind] in H.
    + destruct (IH _ _ H) as [k [Hx [Hn Hin]]].
      exists k. split; [assumption |]. split; [assumption |].
      destruct Hin as [-> | Hin]; [now left |].
      right. cbn [flat_map snd]. apply in_or_app. now right.
    + inversion H. subst.
      assert (Hl : (0 + List.length keylabels
                    <= List.length (gridcolors E (List.length keylabels)))%nat)
        by (rewrite Hc; lia).
      destruct (add_traces_raise _ _ _ _ _ Hl Ea) as [k [Hx [Hn Hin]]].
      exists k. split; [assumption |]. split; [assumption |].
      destruct Hin as [-> | Hin]; [now left |].
      right. cbn [flat_map snd]. apply in_or_app. now left.
Qed.

End Figures.

Lemma plot_all_builds_every_group_witness :
  plot_all working_engine (fst (run working_engine (new_Sim working_engine))) 0
    (to_plot working_engine) []
  = Ok (graphs_from working_engine (fst (run working_engine (new_Sim working_engine)))
          [of_Z 0; of_Z 1; of_Z 2] 0 (to_plot working_engine)).
Proof.
  apply (plot_all_builds_every_group working_engine
           (fst (run working_engine (new_Sim working_engine)))
           [of_Z 0; of_Z 1; of_Z 2]).
  - intros n. cbn. apply repeat_length.
  - reflexivity.
  - intros key Hin. cbn in Hin.
    destruct Hin as [<- | [<- | []]]; reflexivity.
Defined.

Lemma plot_all_fails_on_missing_series_witness :
  exists k,
    KeyError "cum_exposed" = KeyError k /\
    dict_get k (results early_failing_engine
                  (fst (run early_failing_engine (new_Sim early_failing_engine)))) = None /\
    (k = "t" \/ In k (flat_map (fun g => keys (snd g)) (to_plot early_failing_engine))).
Proof.
  apply (plot_all_fails_on_missing_series early_failing_engine
           (fst (run early_failing_engine (new_Sim early_failing_engine)))
           (to_plot early_failing_engine) 0 [] (KeyError "cum_exposed")).
  - intros n. cbn. apply repeat_length.
  - reflexivity.
Defined.

(** ** Requests that run *)

(** X15. A request in which every key is a catalog key, every entry is a
    mapping whose [best] is falsy or converts to a number, and a [seed] key
    is present gets through conversion and seeding on any engine: if the
    figures and the summary can then be built, [run_sim] returns a result,
    and its [err] holds nothing but the engine's failure, if any. *)
Theorem usable_request_runs (E : Engine) (s e : dict PyVal) (verbose : PyVal) :
  (forall k en, In (k, en) s \/ In (k, en) e ->
     bounds k <> None /\ usable_entry en = true) ->
  In "seed" (keys s) \/ In "seed" (keys e) ->
  exists pars seed,
    conv_pars (convert (VDict s) (VDict e) verbose) = Some pars /\
    conv_exn (convert (VDict s) (VDict e) verbose) = None /\
    seed_arg pars = Ok seed /\
    forall graphs summary,
      plot_all E (fst (run E (configured E pars seed))) 0 (to_plot E) [] = Ok graphs ->
      make_summary E (fst (run E (configured E pars seed))) = Ok summary ->
      exists r,
        run_sim E (VDict s) (VDict e) verbose = Ok r /\
        out_err r = run_err "" (snd (run E (configured E pars seed))) /\
        out_graphs r = graphs /\ out_summary r = summary.
Proof.
  intros Hall Hseed.
  pose proof (usable_converts s e verbose Hall) as Hok.
  destruct (convert_ok s e verbose Hok) as [st [Hrun Hc]].
  assert (Hp : conv_pars (convert (VDict s) (VDict e) verbose) = Some (pars st))
    by now rewrite Hc.
  exists (pars st).
  apply in_keys_merge in Hseed. apply in_keys_entry in Hseed as [entry Hin].
  pose proof (in_dict_get "seed" entry _ (nodup_dict_merge s e) Hin) as Hget.
  destruct (conv_done s e verbose _ "seed" entry Hok Hp Hget) as [x [_ Hx]].
  pose proof (seed_arg_cases s e verbose _ Hp) as Hcases.
  destruct (seed_arg (pars st)) as [seed | y] eqn:Hs.
  - exists seed. repeat (split; [assumption || reflexivity |]).
    intros graphs summary Hg Hsum. rewrite run_sim_stages. cbv zeta.
    rewrite Hp, Hs. cbn [rbind]. rewrite Hg. cbn [rbind]. rewrite Hsum. cbn [rbind].
    eexists. split; [reflexivity |]. cbn [out_err out_graphs out_summary].
    assert (He : conv_err (convert (VDict s) (VDict e) verbose) = "")
      by now apply conv_err_empty.
    rewrite He. auto.
  - exfalso. destruct Hcases as [[_ Hn] | [_ Hn]]; [congruence |].
    assert (Hne : "seed" <> "verbose") by discriminate.
    destruct (pars_float_origin s e verbose _ "seed" FNaN Hp Hn Hne)
      as [en [best [v [lo [hi [H1 [H2 [H3 [H4 [_ [H6 H7]]]]]]]]]]].
    assert (en = entry) by congruence. subst en.
    destruct (Hall "seed" entry (in_dict_merge _ _ s e Hin)) as [_ Hu].
    destruct (usable_entry_dict entry Hu) as [d [b [-> [Hd Hb]]]].
    cbn [getitem] in H2. unfold lookup in H2. rewrite Hd in H2. inversion H2. subst b.
    destruct Hb as [Hb | [f [Hf Hnan]]]; [congruence |].
    assert (f = v) by congruence. subst f.
    pose proof (median3_in_range v lo hi H6) as Hr. rewrite Hnan, <- H7 in Hr.
    cbn [fle] in Hr. rewrite andb_false_r in Hr. discriminate.
Qed.

Lemma usable_request_runs_witness :
  exists r,
    run_sim working_engine (VDict full_sim_group) (VDict full_epi_group) (VBool true) = Ok r /\
    out_err r = "".
Proof.
  assert (Hall : forall k en, In (k, en) full_sim_group \/ In (k, en) full_epi_group ->
                   bounds k <> None /\ usable_entry en = true).
  { intros k en [H | H]; cbn in H;
      repeat (destruct H as [H | H]; [inversion H; subst; split;
                                      [vm_compute; discriminate | reflexivity] |]);
      destruct H. }
  assert (Hseed : In "seed" (keys full_sim_group) \/ In "seed" (keys full_epi_group)).
  { left. cbn. tauto. }
  destruct (usable_request_runs working_engine full_sim_group full_epi_group (VBool true)
              Hall Hseed) as [pars [seed [Hp [_ [Hs Hrun]]]]].
  assert (Hp' : conv_pars (convert (VDict full_sim_group) (VDict full_epi_group) (VBool true))
                = Some full_pars) by (vm_compute; reflexivity).
  assert (pars = full_pars) by congruence. subst pars.
  assert (Hs' : seed_arg full_pars = Ok (Some 1)) by (vm_compute; reflexivity).
  assert (seed = Some 1) by congruence. subst seed.
  destruct (Hrun (out_graphs full_result) (out_summary full_result))
    as [r [Hr [He _]]].
  - vm_compute. reflexivity.
  - vm_compute. reflexivity.
  - exists r. split; [exact Hr |]. rewrite He. reflexivity.
Defined.

(** ** Starting the server *)

Lemma py_int_text (a : string) (z : Z) :
  py_int (VStr a) = Ok z <-> int_of_string a = Some z.
Proof.
  cbn [py_int]. destruct (int_of_string a) as [z' |].
  - split; intros H; inversion H; reflexivity.
  - split; discriminate.
Qed.

(** X16. With two or more command-line arguments the server is started on
    the port given by the first, and only if the second is the text of an
    integer as well; the value of the second changes nothing: [app.run] is
    always called with [autoreload=True]. *)
Theorem main_second_argument_unused (a0 a1 b : string) (rest : list string)
    (st : ServerStart) :
  main (a0 :: a1 :: b :: rest) = Ok st ->
  main [a0; a1] = Ok st /\
  int_of_string a1 = Some (server_port st) /\
  int_of_string b <> None /\
  run_autoreload st = true.
Proof.
  unfold main. cbn [List.length Nat.ltb Nat.leb argv_item nth_error rbind].
  destruct (py_int (VStr a1)) as [port |] eqn:Hp; cbn [rbind]; [| discriminate].
  destruct (py_int (VStr b)) as [ar |] eqn:Hb; cbn [rbind]; [| discriminate].
  intros H. inversion H. subst st. cbn [server_port run_autoreload].
  apply py_int_text in Hp. apply py_int_text in Hb.
  repeat split; [assumption | congruence].
Qed.

Lemma main_second_argument_unused_witness :
  main ["cova_app.py"; "8080"] = Ok (mkServerStart 8080 true) /\
  int_of_string "8080" = Some 8080.
Proof.
  destruct (main_second_argument_unused "cova_app.py" "8080" "0" []
              (mkServerStart 8080 true)) as [H1 [H2 _]].
  - vm_compute. reflexivity.
  - split; [exact H1 | exact H2].
Defined.

(** ** Numbers sent as text *)








(** ** The summary *)

Lemma readable_series_round (E : Engine) (sim : Sim E) (key : string) :
  readable_series E sim key = true <->
  exists z, (do series <- lookup key (results E sim);
             do x <- last_item series; py_round x) = Ok z.
Proof.
  unfold readable_series, lookup, last_item.
  destruct (dict_get key (results E sim)) as [series |]; cbn [rbind].
  - destruct (rev series) as [| [| b | q] r]; cbn [rbind py_round].
    + split; [discriminate | intros [z H]; discriminate].
    + split; [discriminate | intros [z H]; discriminate].
    + split; [discriminate | intros [z H]; discriminate].
    + split; [intros _; eexists; reflexivity | reflexivity].
  - split; [discriminate | intros [z H]; discriminate].
Qed.

(** X18. The summary can be built exactly when the results hold both
    cumulative series, neither is empty, and the last element of each is a
    number; with a missing or empty series, or one that ends in infinity or
    not-a-number, building the summary raises. *)
Theorem summary_needs_both_series (E : Engine) (sim : Sim E) :
  (exists summary, make_summary E sim = Ok summary) <->
  readable_series E sim "cum_exposed" && readable_series E sim "cum_deaths" = true.
Proof.
  rewrite andb_true_iff, !readable_series_round. unfold make_summary.
  split.
  - intros [sm H].
    destruct (lookup "cum_exposed" (results E sim)) as [ce |]; cbn [rbind] in *; [| discriminate].
    destruct (last_item ce) as [x |]; cbn [rbind] in *; [| discriminate].
    destruct (py_round x) as [c |]; cbn [rbind] in *; [| discriminate].
    destruct (lookup "cum_deaths" (results E sim)) as [cd |]; cbn [rbind] in *; [| discriminate].
    destruct (last_item cd) as [y |]; cbn [rbind] in *; [| discriminate].
    destruct (py_round y) as [d |]; cbn [rbind] in *; [| discriminate].
    split; eexists; reflexivity.
  - intros [[c Hc] [d Hd]].
    destruct (lookup "cum_exposed" (results E sim)) as [ce |]; cbn [rbind] in *; [| discriminate].
    destruct (last_item ce) as [x |]; cbn [rbind] in *; [| discriminate].
    rewrite Hc. cbn [rbind].
    destruct (lookup "cum_deaths" (results E sim)) as [cd |]; cbn [rbind] in *; [| discriminate].
    destruct (last_item cd) as [y |]; cbn [rbind] in *; [| discriminate].
    rewrite Hd. cbn [rbind]. eexists. reflexivity.
Qed.
